(** * Resilient call executor of the GlacierDB adapter for elizaOS

    A shallow embedding of [GlacierDBDatabaseAdapter] (TypeScript): the
    retry loop [withRetry], the composed executor [withDatabase], and the two
    data-access methods [getMemories] and [getCachedEmbeddings].

    Conventions of the embedding.
    - A JavaScript [number] is the rational ([Q]) it denotes.  The sum and
      the product that make a retry delay are rounded to the nearest
      IEEE-754 double, ties to even ([binary64]); overflow to [Infinity] is
      not modelled.
    - An asynchronous operation [() => Promise<T>] is a transition on the
      state of the remote store that either resolves with a value or rejects
      with a thrown value.  One call of the adapter runs sequentially; its
      effects (invocations of the operation, log entries, suspensions) are
      returned as a list of events, oldest first.
    - [Math.random()] is the stream [random]; the world counts the draws
      consumed so far, so successive draws read successive stream positions.
    - [setTimeout(resolve, delay)] advances the clock by [delay].  The time
      an invocation of the operation takes is not modelled, so the clock of
      the model is a lower bound of the time elapsed and nothing is stated
      about how long a call lasts.
    - A log entry records the values logged, not their formatted text. *)

From Stdlib Require Import List String ZArith QArith Qminmax Qround Qpower.
From Stdlib Require Import Lia Lqa Bool Arith DecimalString.
Import ListNotations.

Local Open Scope string_scope.
Local Open Scope nat_scope.

(** ** JavaScript values that can be thrown *)

(** An [Error] object, by its [name] and [message]. *)
Record JsError : Type := mkJsError {
  err_name : string;
  err_message : string
}.

(** A thrown value is an [Error] instance or any other value, the latter
    seen through [String(value)]. *)
Inductive js_thrown : Type :=
| ErrorInstance (e : JsError)
| OtherValue (str : string).

(** [new Error(message)] *)
Definition new_Error (message : string) : JsError :=
  mkJsError "Error" message.

(** [error instanceof Error ? error.message : String(error)] *)
Definition error_text (error : js_thrown) : string :=
  match error with
  | ErrorInstance e => err_message e
  | OtherValue str => str
  end.

(** [error instanceof Error ? error : new Error(String(error))] *)
Definition as_Error (error : js_thrown) : JsError :=
  match error with
  | ErrorInstance e => e
  | OtherValue str => new_Error str
  end.

(** Settled promise: resolved with a value or rejected with an error. *)
Inductive result (T E : Type) : Type :=
| Returned (v : T)
| Thrown (e : E).
Arguments Returned {T E} v.
Arguments Thrown {T E} e.

(** ** Effects of one call *)

Inductive event : Type :=
| EvInvoke (failure : option js_thrown)
    (* [await operation()], and what it threw if it rejected *)
| EvWarn (attempt total : nat) (error : string) (nextRetryIn : Q)
    (* [elizaLogger.warn("Database operation failed (attempt a/n):", ...)] *)
| EvSleep (delay : Q)
    (* [await new Promise(resolve => setTimeout(resolve, delay))] *)
| EvError (error : string) (totalAttempts : nat).
    (* [elizaLogger.error("Max retry attempts reached:", ...)] *)

Definition is_invoke (ev : event) : bool :=
  match ev with EvInvoke _ => true | _ => false end.

(** Number of times the operation was invoked. *)
Definition invocations (evs : list event) : nat :=
  List.length (filter is_invoke evs).

(** The suspensions, in order. *)
Fixpoint delays (evs : list event) : list Q :=
  match evs with
  | [] => []
  | EvSleep d :: rest => d :: delays rest
  | _ :: rest => delays rest
  end.

(** The outcomes of the invocations, in order: [None] for a resolved
    attempt, [Some error] for a rejected one. *)
Fixpoint attempts (evs : list event) : list (option js_thrown) :=
  match evs with
  | [] => []
  | EvInvoke o :: rest => o :: attempts rest
  | _ :: rest => attempts rest
  end.

(** ** Configuration held by the adapter instance *)

(** The [private readonly] fields of the class. *)
Record RetryConfig : Type := mkRetryConfig {
  maxRetries : nat;
  baseDelay : Q;
  maxDelay : Q;
  jitterMax : Q
}.

(** The options given to [super(...)] in the constructor. *)
Record BreakerConfig : Type := mkBreakerConfig {
  failureThreshold : nat;
  resetTimeout : Q;
  halfOpenMaxAttempts : nat
}.

Definition adapter_retry : RetryConfig :=
  {| maxRetries := 3; baseDelay := 1000; maxDelay := 10000; jitterMax := 1000 |}.

Definition adapter_breaker : BreakerConfig :=
  {| failureThreshold := 5; resetTimeout := 60000; halfOpenMaxAttempts := 3 |}.

(** ** The world a call runs in *)

Section World.

Context {Store : Type}.

Record world : Type := mkWorld {
  dep : Store;      (* state of the remote data store *)
  clock : Q;        (* milliseconds *)
  draws : nat       (* number of [Math.random()] calls made so far *)
}.

Definition set_dep (d : Store) (w : world) : world :=
  {| dep := d; clock := clock w; draws := draws w |}.

(** Time passing between two calls of the adapter. *)
Definition advance (idle : Q) (w : world) : world :=
  {| dep := dep w; clock := (clock w + idle)%Q; draws := draws w |}.

End World.
Arguments world Store : clear implicits.

(** [() => Promise<T>] against the remote store. *)
Definition operation (Store T : Type) : Type :=
  Store -> (T + js_thrown) * Store.

(** An effectful computation of the adapter. *)
Definition action (Store T E : Type) : Type :=
  world Store -> result T E * list event * world Store.

(** ** Arithmetic on [number]

    [+] and [*] on two numbers give the double nearest to the exact result,
    a tie going to the double whose last bit is even. *)

(** Nearest integer, ties to even. *)
Definition round_half_even (s : Q) : Z :=
  let f := Qfloor s in
  match (s - inject_Z f ?= 1 # 2)%Q with
  | Lt => f
  | Gt => (f + 1)%Z
  | Eq => if Z.even f then f else (f + 1)%Z
  end.

(** For [X] counted in units of [2^-1074], the smallest positive double:
    the exponent of the spacing of the doubles around [X].  Up to [2^53]
    units every integer is a double (the subnormal range and the first
    binade); above, a double has 53 significant bits. *)
Definition ulp_exponent (X : Q) : Z :=
  (Z.max (Z.log2 (Qfloor X)) 52 - 52)%Z.

Definition binary64_scaled (X : Q) : Q :=
  let u := inject_Z (2 ^ ulp_exponent X) in
  (inject_Z (round_half_even (X / u)) * u)%Q.

Definition binary64_nonneg (x : Q) : Q :=
  Qred (binary64_scaled (x * inject_Z (2 ^ 1074)) / inject_Z (2 ^ 1074)).

(** The double nearest to [x]; rounding is symmetric about zero. *)
Definition binary64 (x : Q) : Q :=
  if Qlt_le_dec x 0 then Qred (- binary64_nonneg (- x)) else binary64_nonneg x.

(** [x + y] and [x * y] on numbers. *)
Definition js_add (x y : Q) : Q := binary64 (x + y).
Definition js_mul (x y : Q) : Q := binary64 (x * y).

(** ** withRetry *)

Section Retry.

Context {Store T : Type}.
Variable cfg : RetryConfig.
Variable random : nat -> Q.

(** [Math.min(this.baseDelay * Math.pow(2, attempt - 1), this.maxDelay)].
    The fields are doubles; a double times a power of two is a double, and
    so is the smaller of two doubles: nothing is rounded here. *)
Definition backoffDelay (attempt : nat) : Q :=
  Qmin (baseDelay cfg * 2 ^ Z.of_nat (attempt - 1)) (maxDelay cfg).

(** The body of the [for] loop, for the [iterations] passes that remain
    from index [attempt] on; falling out of the loop reaches
    [throw lastError]. *)
Fixpoint retry_loop (op : operation Store T) (iterations attempt : nat)
    (lastError : js_thrown) (w : world Store)
    : result T js_thrown * list event * world Store :=
  match iterations with
  | O => (Thrown lastError, [], w)
  | S rest =>
    match op (dep w) with
    | (inl v, d) => (Returned v, [EvInvoke None], set_dep d w)
    | (inr error, d) =>
      if attempt <? maxRetries cfg then
        let jitter := js_mul (random (draws w)) (jitterMax cfg) in
        let delay := js_add (backoffDelay attempt) jitter in
        let w' := {| dep := d; clock := (clock w + delay)%Q;
                     draws := S (draws w) |} in
        let '(r, evs, w'') := retry_loop op rest (S attempt) error w' in
        (r,
         EvInvoke (Some error)
           :: EvWarn attempt (maxRetries cfg) (error_text error) delay
           :: EvSleep delay :: evs,
         w'')
      else
        (Thrown (ErrorInstance (as_Error error)),
         [EvInvoke (Some error); EvError (error_text error) attempt],
         set_dep d w)
    end
  end.

Definition withRetry (op : operation Store T) : action Store T js_thrown :=
  retry_loop op (maxRetries cfg) 1
    (ErrorInstance (new_Error "Unknown error")).

End Retry.

(** ** Circuit breaker

    The class [CircuitBreaker] and the method [withCircuitBreaker] belong to
    the base class [DatabaseAdapter] of the package [@elizaos/core]; the
    adapter only configures them (constructor) and calls them
    ([withDatabase]). *)

(** Modelled from the spec: the three states of the breaker (section 3);
    the class that declares them is missing from the sources. *)
Inductive CircuitState : Type := CLOSED | OPEN | HALF_OPEN.

(** Modelled from the spec: the state of the circuit breaker (section 3):
    the state, the consecutive failure count, the timestamp of the last
    transition to OPEN, and the count of trial calls that succeeded while
    HALF_OPEN.  The class itself is missing from the sources. *)
Record CircuitBreaker : Type := mkBreaker {
  state : CircuitState;
  failureCount : nat;
  lastTransition : Q;
  trialSuccesses : nat
}.

(** Modelled from the spec: what a caller of the adapter can see thrown
    (section 7), the breaker's own distinguished circuit-open error, or a
    JavaScript value thrown further down and propagated as it is. *)
Inductive adapter_error : Type :=
| CircuitOpenError
| JsThrown (e : js_thrown).

(** Modelled from the spec: the breaker returns the result or propagates
    the original failure (section 4.1). *)
Definition propagate {T : Type} (r : result T js_thrown)
    : result T adapter_error :=
  match r with
  | Returned v => Returned v
  | Thrown e => Thrown (JsThrown e)
  end.

(** Modelled from the spec: a new breaker is CLOSED with no failure counted
    (section 8, "still CLOSED, failure count 0"). *)
Definition initial_breaker : CircuitBreaker :=
  {| state := CLOSED; failureCount := 0; lastTransition := 0;
     trialSuccesses := 0 |}.

Section Breaker.

Variable cfg : BreakerConfig.

(** Modelled from the spec: section 4.1, CLOSED.  "On success, reset failure
    count, return result.  On failure, increment failure count; if count >=
    failureThreshold, transition to OPEN (record transition time)". *)
Definition record_closed {T : Type} (r : result T js_thrown) (now : Q)
    (b : CircuitBreaker) : CircuitBreaker :=
  match r with
  | Returned _ =>
    {| state := CLOSED; failureCount := 0;
       lastTransition := lastTransition b;
       trialSuccesses := trialSuccesses b |}
  | Thrown _ =>
    let count := S (failureCount b) in
    if failureThreshold cfg <=? count then
      {| state := OPEN; failureCount := count; lastTransition := now;
         trialSuccesses := trialSuccesses b |}
    else
      {| state := CLOSED; failureCount := count;
         lastTransition := lastTransition b;
         trialSuccesses := trialSuccesses b |}
  end.

(** Modelled from the spec: section 4.1, HALF_OPEN.  "On success: if the
    success count reaches halfOpenMaxAttempts, transition to CLOSED (failure
    count reset); otherwise remain HALF_OPEN awaiting further trials.  On
    failure: transition to OPEN immediately (reset the OPEN timer)"; by the
    invariant of section 3 every successful completion resets the failure
    count. *)
Definition record_half_open {T : Type} (r : result T js_thrown) (now : Q)
    (b : CircuitBreaker) : CircuitBreaker :=
  match r with
  | Returned _ =>
    let successes := S (trialSuccesses b) in
    {| state := if halfOpenMaxAttempts cfg <=? successes
                then CLOSED else HALF_OPEN;
       failureCount := 0;
       lastTransition := lastTransition b;
       trialSuccesses := successes |}
  | Thrown _ =>
    {| state := OPEN; failureCount := failureCount b;
       lastTransition := now;
       trialSuccesses := trialSuccesses b |}
  end.

(** Modelled from the spec: section 4.1, OPEN to HALF_OPEN once the reset
    timeout has elapsed; no trial call has been made yet. *)
Definition enter_half_open (b : CircuitBreaker) : CircuitBreaker :=
  {| state := HALF_OPEN; failureCount := failureCount b;
     lastTransition := lastTransition b; trialSuccesses := 0 |}.

Section Execute.

Context {Store T : Type}.

(** Modelled from the spec: run the wrapped operation once and report its
    outcome to the breaker through [record]; the failure is propagated
    as it is. *)
Definition run_and_record
    (record : result T js_thrown -> Q -> CircuitBreaker -> CircuitBreaker)
    (act : action Store T js_thrown) (b : CircuitBreaker) (w : world Store)
    : result T adapter_error * list event * CircuitBreaker * world Store :=
  let '(r, evs, w') := act w in
  (propagate r, evs, record r (clock w') b, w').

(** Modelled from the spec: [execute(operation)] of section 4.1, by state.
    "OPEN: if elapsed time since transition < resetTimeout, fail immediately
    with a distinguished circuit open error (does not invoke the operation).
    If elapsed time >= resetTimeout, transition to HALF_OPEN and proceed". *)
Definition execute (act : action Store T js_thrown) (b : CircuitBreaker)
    (w : world Store)
    : result T adapter_error * list event * CircuitBreaker * world Store :=
  match state b with
  | CLOSED => run_and_record record_closed act b w
  | HALF_OPEN => run_and_record record_half_open act b w
  | OPEN =>
    if Qlt_le_dec (clock w - lastTransition b) (resetTimeout cfg) then
      (Thrown CircuitOpenError, [], b, w)
    else
      run_and_record record_half_open act (enter_half_open b) w
  end.

(** Modelled from the spec: [withCircuitBreaker(operation, context)] of the
    base class is [circuitBreaker.execute(operation)] (section 4.3); the
    context label only names the call. *)
Definition withCircuitBreaker (act : action Store T js_thrown)
    (context : string) (b : CircuitBreaker) (w : world Store)
    : result T adapter_error * list event * CircuitBreaker * world Store :=
  execute act b w.

(** A scenario: successive calls through one breaker, each after some idle
    time and each wrapping its own operation; the outcomes are listed in
    call order. *)
Fixpoint execute_all (calls : list (Q * action Store T js_thrown))
    (b : CircuitBreaker) (w : world Store)
    : list (result T adapter_error) * CircuitBreaker * world Store :=
  match calls with
  | [] => ([], b, w)
  | (idle, act) :: rest =>
    let '(r, _, b', w') := execute act b (advance idle w) in
    let '(rs, b'', w'') := execute_all rest b' w' in
    (r :: rs, b'', w'')
  end.

End Execute.

End Breaker.

Definition is_thrown {T E : Type} (r : result T E) : bool :=
  match r with Thrown _ => true | Returned _ => false end.

(** ** The composed executor *)

Section Adapter.

Context {Store : Type}.
Variable rcfg : RetryConfig.
Variable bcfg : BreakerConfig.
Variable random : nat -> Q.

(** [withDatabase(operation, context)]:
    [this.withCircuitBreaker(async () => this.withRetry(operation), context)] *)
Definition withDatabase {T : Type} (op : operation Store T) (context : string)
    (b : CircuitBreaker) (w : world Store)
    : result T adapter_error * list event * CircuitBreaker * world Store :=
  withCircuitBreaker bcfg (withRetry rcfg random op) context b w.

(** ** getCachedEmbeddings *)

Record CachedEmbeddingsOpts : Type := mkCachedEmbeddingsOpts {
  query_table_name : string;
  query_threshold : Q;
  query_input : string;
  query_field_name : string;
  query_field_sub_name : string;
  query_match_count : Q
}.

Record CachedEmbedding : Type := mkCachedEmbedding {
  embedding : list Q;
  levenshtein_score : Q
}.

(** [async getCachedEmbeddings(_opts) { return []; }] *)
Definition getCachedEmbeddings (_opts : CachedEmbeddingsOpts)
    (b : CircuitBreaker) (w : world Store)
    : result (list CachedEmbedding) adapter_error * list event
      * CircuitBreaker * world Store :=
  (Returned [], [], b, w).

(** ** getMemories *)

Section Memories.

Context {Json Fields : Type}.

(** [JSON.parse], which throws a [SyntaxError] on malformed text. *)
Variable JSON_parse : string -> Json + JsError.

(** A record of the collection "memories": its [content], a string or
    an object already, and the other fields. *)
Record memory_row : Type := mkRow {
  row_content : string + Json;
  row_fields : Fields
}.

Record Memory : Type := mkMemory {
  content : Json;
  fields : Fields
}.

Record GetMemoriesParams : Type := mkGetMemoriesParams {
  roomId : string;
  count : option Q;
  unique : option bool;
  tableName : string;
  agentId : option string;
  start : option Q;
  end_ : option Q
}.

(** The filter object built by [getMemories]. *)
Record memories_query : Type := mkQuery {
  q_type : string;
  q_roomId : string;
  q_createdAt_gte : option Q;
  q_createdAt_lte : option Q;
  q_unique : option bool;
  q_agentId : option string
}.

(** The remote request
    [_db.collection("memories").find(query).sort({createdAt: -1}).limit(n).toArray()],
    with [n] possibly [undefined]. *)
Variable find_memories :
  memories_query -> option Q -> operation Store (list memory_row).

(** Truthiness of the optional parameters. *)
Definition truthy_string (s : string) : bool := negb (String.eqb s "").

Definition truthy_number (n : option Q) : bool :=
  match n with Some x => negb (Qeq_bool x 0) | None => false end.

Definition truthy_bool (o : option bool) : bool :=
  match o with Some x => x | None => false end.

Definition truthy_id (o : option string) : bool :=
  match o with Some s => truthy_string s | None => false end.

Definition build_query (params : GetMemoriesParams) : memories_query :=
  {| q_type := tableName params;
     q_roomId := roomId params;
     q_createdAt_gte :=
       if truthy_number (start params) then start params else None;
     q_createdAt_lte :=
       if truthy_number (end_ params) then end_ params else None;
     q_unique := if truthy_bool (unique params) then Some true else None;
     q_agentId := if truthy_id (agentId params) then agentId params else None
  |}.

(** [if (params.count > 20) { params.count = 20; }], the value then passed
    to [limit]; the comparison is false when [count] is [undefined].  The
    assignment changes [params] for later attempts of the same call, which
    then find a count that the test leaves alone. *)
Definition limited_count (count : option Q) : option Q :=
  match count with
  | Some c => if Qlt_le_dec 20 c then Some 20%Q else Some c
  | None => None
  end.

(** [{...memory, content: typeof memory.content === "string"
                          ? JSON.parse(memory.content) : memory.content}] *)
Definition parse_row (row : memory_row) : Memory + JsError :=
  match row_content row with
  | inl text =>
    match JSON_parse text with
    | inl json => inl {| content := json; fields := row_fields row |}
    | inr e => inr e
    end
  | inr json => inl {| content := json; fields := row_fields row |}
  end.

(** [memories.map(...)]: the first row that fails to parse throws. *)
Fixpoint parse_rows (rows : list memory_row) : list Memory + JsError :=
  match rows with
  | [] => inl []
  | row :: rest =>
    match parse_row row with
    | inr e => inr e
    | inl m =>
      match parse_rows rest with
      | inl ms => inl (m :: ms)
      | inr e => inr e
      end
    end
  end.

(** The operation handed to [withDatabase]. *)
Definition getMemories_operation (params : GetMemoriesParams)
    : operation Store (list Memory) :=
  fun d =>
    let query := build_query params in
    match find_memories query (limited_count (count params)) d with
    | (inl memories, d') =>
      match parse_rows memories with
      | inl ms => (inl ms, d')
      | inr e => (inr (ErrorInstance e), d')
      end
    | (inr error, d') => (inr error, d')
    end.

Definition getMemories (params : GetMemoriesParams) (b : CircuitBreaker)
    (w : world Store)
    : result (list Memory) adapter_error * list event * CircuitBreaker
      * world Store :=
  if negb (truthy_string (tableName params)) then
    (Thrown (JsThrown (ErrorInstance (new_Error "tableName is required"))),
     [], b, w)
  else if negb (truthy_string (roomId params)) then
    (Thrown (JsThrown (ErrorInstance (new_Error "roomId is required"))),
     [], b, w)
  else
    withDatabase (getMemories_operation params) "getMemories" b w.

End Memories.

End Adapter.

(** ** Other data-access methods

    Each remote request of the Glacier client is a parameter, an operation
    on the environment the adapter runs in.  Entries written with
    [elizaLogger] or [console.log] inside an operation are not modelled:
    they do not change what the operation resolves or rejects with. *)

(** Elements of an embedding: a finite number, or one of [NaN],
    [Infinity] and [-Infinity]. *)
Inductive js_number : Type :=
| Finite (q : Q)
| NotFinite.


(** Decimal text of a length, as a template literal prints it. *)
Definition string_of_nat (n : nat) : string :=
  NilZero.string_of_uint (Nat.to_uint n).

(** [Array.from(new Set(values))]: a [Set] keeps the first occurrence of
    each value, in insertion order. *)
Fixpoint Set_add_all (seen values : list string) : list string :=
  match values with
  | [] => seen
  | v :: rest =>
    if existsb (String.eqb v) seen then Set_add_all seen rest
    else Set_add_all (seen ++ [v])%list rest
  end.

Definition Array_from_Set (values : list string) : list string :=
  Set_add_all [] values.

(** Whether a request resolved. *)
Definition is_resolved {A : Type} (outcome : A + js_thrown) : bool :=
  match outcome with inl _ => true | inr _ => false end.

(** Time spent suspended during a call. *)
Definition total_delay (evs : list event) : Q :=
  fold_right Qplus 0%Q (delays evs).

Section DataAccess.

Context {Store Json Fields : Type}.
Variable rcfg : RetryConfig.
Variable bcfg : BreakerConfig.
Variable random : nat -> Q.

(** [JSON.parse] and [JSON.stringify]; [uuidv4()], which draws from the
    environment; the empty object literal; [Date.now()] as the environment
    tells it.  [JSON.stringify(value)] gives a text, or [undefined] (a
    value whose [toJSON] gives [undefined]), or throws (a circular
    structure, a [BigInt], a [toJSON] that throws). *)
Variable JSON_parse : string -> Json + JsError.
Variable JSON_stringify : Json -> option string + js_thrown.
Variable uuidv4 : Store -> string * Store.
Variable empty_object : Json.
Variable Date_now : Store -> Q.

(** What a method of the adapter settles with, beside the events of the
    call and the breaker and world it leaves. *)
Definition settled (T : Type) : Type :=
  (result T adapter_error * list event * CircuitBreaker * world Store)%type.

(** [throw new Error(message)] in a method body, before any call of
    [withDatabase]. *)
Definition reject_with {T : Type} (message : string) (b : CircuitBreaker)
    (w : world Store) : settled T :=
  (Thrown (JsThrown (ErrorInstance (new_Error message))), [], b, w).

(** *** getMemoriesByRoomIds, getMemoryById *)

Record MemoriesByRoomIdsParams : Type := mkMemoriesByRoomIdsParams {
  mr_roomIds : list string;
  mr_agentId : option string;
  mr_tableName : string
}.

(** [{ roomId: { $in: roomIds }, type: tableName }], with [agentId] when
    it is truthy. *)
Record rooms_query : Type := mkRoomsQuery {
  rq_roomId_in : list string;
  rq_type : string;
  rq_agentId : option string
}.

(** [_db.collection("memories").find(query).toArray()] *)
Variable find_memories_in_rooms :
  rooms_query -> operation Store (list (@memory_row Json Fields)).

Definition getMemoriesByRoomIds_operation (params : MemoriesByRoomIdsParams)
    : operation Store (list (@Memory Json Fields)) :=
  fun d =>
    if List.length (mr_roomIds params) =? 0 then (inl [], d)
    else
      let query :=
        {| rq_roomId_in := mr_roomIds params;
           rq_type := mr_tableName params;
           rq_agentId :=
             if truthy_id (mr_agentId params) then mr_agentId params
             else None |} in
      match find_memories_in_rooms query d with
      | (inl memories, d') =>
        match parse_rows JSON_parse memories with
        | inl ms => (inl ms, d')
        | inr e => (inr (ErrorInstance e), d')
        end
      | (inr error, d') => (inr error, d')
      end.

Definition getMemoriesByRoomIds (params : MemoriesByRoomIdsParams)
    (b : CircuitBreaker) (w : world Store)
    : settled (list (@Memory Json Fields)) :=
  withDatabase rcfg bcfg random (getMemoriesByRoomIds_operation params)
    "getMemoriesByRoomIds" b w.

(** [_db.collection("memories").find({ id: id }).limit(1).toArray()] *)
Variable find_memory_by_id :
  string -> operation Store (list (@memory_row Json Fields)).

(** [null] is [None]. *)
Definition getMemoryById_operation (id : string)
    : operation Store (option (@Memory Json Fields)) :=
  fun d =>
    match find_memory_by_id id d with
    | (inl memorys, d') =>
      match memorys with
      | [] => (inl None, d')
      | memory :: _ =>
        match parse_row JSON_parse memory with
        | inl m => (inl (Some m), d')
        | inr e => (inr (ErrorInstance e), d')
        end
      end
    | (inr error, d') => (inr error, d')
    end.

Definition getMemoryById (id : string) (b : CircuitBreaker)
    (w : world Store) : settled (option (@Memory Json Fields)) :=
  withDatabase rcfg bcfg random (getMemoryById_operation id)
    "getMemoryById" b w.

(** *** Participants *)

(** A record of the collection "participants"; a field may be missing. *)
Record participant_row : Type := mkParticipantRow {
  pr_userId : option string;
  pr_roomId : option string;
  pr_userState : option string
}.

(** The [TypeError] raised by [undefined.toString()]. *)
Variable undefined_toString : JsError.

(** [rooms.map(room => room.roomId.toString())] *)
Fixpoint room_ids (rooms : list participant_row) : list string + JsError :=
  match rooms with
  | [] => inl []
  | room :: rest =>
    match pr_roomId room with
    | None => inr undefined_toString
    | Some id =>
      match room_ids rest with
      | inl ids => inl (id :: ids)
      | inr e => inr e
      end
    end
  end.

(** [_db.collection("participants").find({ userId: userId }).toArray()] *)
Variable find_participants_of_user :
  string -> operation Store (list participant_row).

(** [_db.collection("participants").find({ userId: { $in: userIds } }).toArray()] *)
Variable find_participants_of_users :
  list string -> operation Store (list participant_row).

Definition getRoomsForParticipant_operation (userId : string)
    : operation Store (list string) :=
  fun d =>
    match find_participants_of_user userId d with
    | (inl rooms, d') =>
      match room_ids rooms with
      | inl ids => (inl ids, d')
      | inr e => (inr (ErrorInstance e), d')
      end
    | (inr error, d') => (inr error, d')
    end.

Definition getRoomsForParticipant (userId : string) (b : CircuitBreaker)
    (w : world Store) : settled (list string) :=
  withDatabase rcfg bcfg random (getRoomsForParticipant_operation userId)
    "getRoomsForParticipant" b w.

Definition getRoomsForParticipants_operation (userIds : list string)
    : operation Store (list string) :=
  fun d =>
    match find_participants_of_users userIds d with
    | (inl rooms, d') =>
      match room_ids rooms with
      | inl ids => (inl (Array_from_Set ids), d')
      | inr e => (inr (ErrorInstance e), d')
      end
    | (inr error, d') => (inr error, d')
    end.

Definition getRoomsForParticipants (userIds : list string)
    (b : CircuitBreaker) (w : world Store) : settled (list string) :=
  withDatabase rcfg bcfg random (getRoomsForParticipants_operation userIds)
    "getRoomsForParticipants" b w.

(** [{ id: uuidv4(), userId: userId, roomId: roomId }] *)
Record participant_doc : Type := mkParticipantDoc {
  pd_id : string;
  pd_userId : string;
  pd_roomId : string
}.

(** [_db.collection("participants").insertOne(doc)] *)
Variable insert_participant : participant_doc -> operation Store unit.

(** [_db.collection("participants").deleteOne({ userId, roomId })] *)
Variable delete_participant : string -> string -> operation Store unit.

(** [try { await request; return true; } catch (error) { ...; return false; }] *)
Definition true_unless_thrown (request : operation Store unit)
    : operation Store bool :=
  fun d =>
    match request d with
    | (inl _, d') => (inl true, d')
    | (inr _, d') => (inl false, d')
    end.

Definition addParticipant_operation (userId roomId : string)
    : operation Store bool :=
  fun d =>
    let '(id, d0) := uuidv4 d in
    true_unless_thrown
      (insert_participant
         {| pd_id := id; pd_userId := userId; pd_roomId := roomId |}) d0.

Definition addParticipant (userId roomId : string) (b : CircuitBreaker)
    (w : world Store) : settled bool :=
  withDatabase rcfg bcfg random (addParticipant_operation userId roomId)
    "addParticipant" b w.

Definition removeParticipant (userId roomId : string) (b : CircuitBreaker)
    (w : world Store) : settled bool :=
  withDatabase rcfg bcfg random
    (true_unless_thrown (delete_participant userId roomId))
    "removeParticipant" b w.

(** *** Cache *)

(** A record of the collection "cache", by its [value]. *)
Record cache_row : Type := mkCacheRow {
  cr_value : option string
}.

(** [_db.collection("cache").find({ key, agentId }).limit(1).toArray()] *)
Variable find_cache : string -> string -> operation Store (list cache_row).

(** [_db.collection("cache").deleteOne({ key, agentId })] *)
Variable delete_cache : string -> string -> operation Store unit.

(** [undefined] is [None]; [cacheEntry?.value] of no entry is
    [undefined]. *)
Definition getCache_operation (key agentId : string)
    : operation Store (option string) :=
  fun d =>
    match find_cache key agentId d with
    | (inl cacheEntrys, d') =>
      (inl match cacheEntrys with
           | [] => None
           | cacheEntry :: _ => cr_value cacheEntry
           end,
       d')
    | (inr _, d') => (inl None, d')
    end.

Definition getCache (key agentId : string) (b : CircuitBreaker)
    (w : world Store) : settled (option string) :=
  withDatabase rcfg bcfg random (getCache_operation key agentId)
    "getCache" b w.

Definition deleteCache (key agentId : string) (b : CircuitBreaker)
    (w : world Store) : settled bool :=
  withDatabase rcfg bcfg random
    (true_unless_thrown (delete_cache key agentId)) "deleteCache" b w.

(** *** getActorDetails *)

(** A record of the collection "accounts": its [details], a string or an
    object already, and the other fields. *)
Record actor_row : Type := mkActorRow {
  ar_details : string + Json;
  ar_fields : Fields
}.

Record Actor : Type := mkActor {
  actor_details : Json;
  actor_fields : Fields
}.

(** [_db.collection("participants").find({ roomId }).toArray()] *)
Variable find_participants_in_room :
  string -> operation Store (list participant_row).

(** [_db.collection("accounts").find({ userId: { $in: participants } }).toArray()],
    the filter holding the participant records themselves. *)
Variable find_accounts_of :
  list participant_row -> operation Store (list actor_row).

(** The callback of [actors.map]: a failure of [JSON.parse] falls back to
    [details: {}]. *)
Definition actor_of (actor : actor_row) : Actor :=
  match ar_details actor with
  | inl text =>
    match JSON_parse text with
    | inl json => {| actor_details := json; actor_fields := ar_fields actor |}
    | inr _ =>
      {| actor_details := empty_object; actor_fields := ar_fields actor |}
    end
  | inr json => {| actor_details := json; actor_fields := ar_fields actor |}
  end.

(** [new Error(`Failed to fetch actor details: ${...}`)] *)
Definition actor_details_failure (error : js_thrown) : js_thrown :=
  ErrorInstance
    (new_Error ("Failed to fetch actor details: " ++ error_text error)).

Definition getActorDetails_operation (roomId : string)
    : operation Store (list Actor) :=
  fun d =>
    match find_participants_in_room roomId d with
    | (inl participants, d1) =>
      match find_accounts_of participants d1 with
      | (inl actors, d2) => (inl (map actor_of actors), d2)
      | (inr error, d2) => (inr (actor_details_failure error), d2)
      end
    | (inr error, d1) => (inr (actor_details_failure error), d1)
    end.

Definition getActorDetails (roomId : string) (b : CircuitBreaker)
    (w : world Store) : settled (list Actor) :=
  if negb (truthy_string roomId) then reject_with "roomId is required" b w
  else
    withDatabase rcfg bcfg random (getActorDetails_operation roomId)
      "getActorDetails" b w.

(** *** searchMemoriesByEmbedding, searchMemories *)

(** [getEmbeddingConfig().dimensions] *)
Variable dimensions : nat.

(** [Number(n.toFixed(6))] on a finite number. *)
Variable toFixed6 : Q -> Q.

Record SearchByEmbeddingParams : Type := mkSearchByEmbeddingParams {
  se_match_threshold : option Q;
  se_count : option Q;
  se_agentId : option string;
  se_roomId : option string;
  se_unique : option bool;
  se_tableName : string
}.

Record vector_query : Type := mkVectorQuery {
  vq_type : string;
  vq_numCandidates : option Q;
  vq_vectorPath : string;
  vq_queryVector : list js_number;
  vq_agentId : option string;
  vq_roomId : option string
}.

(** [_db.collection("memories").find(query).limit(n).toArray()] *)
Variable find_by_vector :
  vector_query -> option Q
  -> operation Store (list (@memory_row Json Fields)).

(** [embedding.map(n => Number.isFinite(n) ? Number(n.toFixed(6)) : 0)] *)
Definition cleanVector (embedding : list js_number) : list js_number :=
  map (fun n =>
         match n with
         | NotFinite => Finite 0
         | Finite q => Finite (toFixed6 q)
         end) embedding.

Definition invalid_dimension (got : nat) : js_thrown :=
  ErrorInstance
    (new_Error ("Invalid embedding dimension: expected "
                ++ string_of_nat dimensions ++ ", got " ++ string_of_nat got)).

Definition vector_query_of (embedding : list js_number)
    (params : SearchByEmbeddingParams) : vector_query :=
  {| vq_type := se_tableName params;
     vq_numCandidates := se_count params;
     vq_vectorPath := "embedding";
     vq_queryVector := cleanVector embedding;
     vq_agentId :=
       if truthy_id (se_agentId params) then se_agentId params else None;
     vq_roomId :=
       if truthy_id (se_roomId params) then se_roomId params else None |}.

Definition searchMemoriesByEmbedding_operation (embedding : list js_number)
    (params : SearchByEmbeddingParams)
    : operation Store (list (@Memory Json Fields)) :=
  fun d =>
    if negb (List.length embedding =? dimensions) then
      (inr (invalid_dimension (List.length embedding)), d)
    else
      match find_by_vector (vector_query_of embedding params)
              (se_count params) d with
      | (inl memories, d') =>
        match parse_rows JSON_parse memories with
        | inl ms => (inl ms, d')
        | inr e => (inr (ErrorInstance e), d')
        end
      | (inr error, d') => (inr error, d')
      end.

Definition searchMemoriesByEmbedding (embedding : list js_number)
    (params : SearchByEmbeddingParams) (b : CircuitBreaker)
    (w : world Store) : settled (list (@Memory Json Fields)) :=
  withDatabase rcfg bcfg random
    (searchMemoriesByEmbedding_operation embedding params)
    "searchMemoriesByEmbedding" b w.

Record SearchMemoriesParams : Type := mkSearchMemoriesParams {
  sm_tableName : string;
  sm_agentId : string;
  sm_roomId : string;
  sm_embedding : list js_number;
  sm_match_threshold : Q;
  sm_match_count : Q;
  sm_unique : bool
}.

Definition searchMemories (params : SearchMemoriesParams)
    (b : CircuitBreaker) (w : world Store)
    : settled (list (@Memory Json Fields)) :=
  searchMemoriesByEmbedding (sm_embedding params)
    {| se_match_threshold := Some (sm_match_threshold params);
       se_count := Some (sm_match_count params);
       se_agentId := Some (sm_agentId params);
       se_roomId := Some (sm_roomId params);
       se_unique := Some (sm_unique params);
       se_tableName := sm_tableName params |} b w.

(** *** countMemories *)

Record count_query : Type := mkCountQuery {
  cq_type : string;
  cq_roomId : string;
  cq_unique : option bool
}.

(** [_db.collection("memories").find(query).toArray()], which yields a
    promise, as at every call site that awaits it. *)
Variable find_memories_to_count :
  count_query -> operation Store (list (@memory_row Json Fields)).

(** [const count = await ....toArray().length; return count;]: the member
    access binds tighter than [await], so what is awaited is the [length]
    property of the promise, which a promise does not have; the request has
    been issued and its answer is not looked at.  [undefined] is [None]. *)
Definition countMemories_operation (roomId : string) (unique : bool)
    (tableName : string) : operation Store (option Q) :=
  fun d =>
    let query :=
      {| cq_type := tableName; cq_roomId := roomId;
         cq_unique := if unique then Some true else None |} in
    (inl None, snd (find_memories_to_count query d)).

(** [countMemories(roomId, unique = true, tableName = "")]; an argument
    left out is [None]. *)
Definition countMemories (roomId : string) (unique : option bool)
    (tableName : option string) (b : CircuitBreaker) (w : world Store)
    : settled (option Q) :=
  let unique := match unique with Some u => u | None => true end in
  let tableName := match tableName with Some t => t | None => "" end in
  if negb (truthy_string tableName) then reject_with "tableName is required" b w
  else
    withDatabase rcfg bcfg random
      (countMemories_operation roomId unique tableName) "countMemories" b w.

(** *** log *)

(** [params.body] at run time: an object, or anything else ([null],
    [undefined], a primitive, a function). *)
Inductive log_body : Type :=
| ObjectBody (json : Json)
| NotAnObject.

Record LogParams : Type := mkLogParams {
  lg_body : log_body;
  lg_userId : string;
  lg_roomId : string;
  lg_type : string
}.

Record log_doc : Type := mkLogDoc {
  ld_id : string;
  ld_body : option string;
  ld_userId : string;
  ld_roomId : string;
  ld_type : string;
  ld_createdAt : Q
}.

(** [_db.collection("logs").insertOne(doc)] *)
Variable insert_log : log_doc -> operation Store unit.

(** The document is built before [insertOne] is called: [uuidv4()] first,
    then [JSON.stringify(params.body)], which may throw inside the [try].
    The [catch] block logs and rethrows the error it caught. *)
Definition log_operation (params : LogParams) (json : Json)
    : operation Store unit :=
  fun d =>
    let '(logId, d0) := uuidv4 d in
    match JSON_stringify json with
    | inl body =>
      insert_log
        {| ld_id := logId; ld_body := body;
           ld_userId := lg_userId params; ld_roomId := lg_roomId params;
           ld_type := lg_type params; ld_createdAt := Date_now d0 |} d0
    | inr error => (inr error, d0)
    end.

Definition log (params : LogParams) (b : CircuitBreaker) (w : world Store)
    : settled unit :=
  if negb (truthy_string (lg_userId params)) then
    reject_with "userId is required" b w
  else if negb (truthy_string (lg_roomId params)) then
    reject_with "roomId is required" b w
  else if negb (truthy_string (lg_type params)) then
    reject_with "type is required" b w
  else
    match lg_body params with
    | NotAnObject => reject_with "body must be a valid object" b w
    | ObjectBody json =>
      withDatabase rcfg bcfg random (log_operation params json) "log" b w
    end.

(** *** Accounts, relationships, rooms *)

(** [_db.collection("accounts").find({ id: userId }).limit(1).toArray()] *)
Variable find_account_by_id :
  string -> operation Store (list actor_row).

(** [{...account, details: typeof account.details === "string"
                            ? JSON.parse(account.details) : account.details}],
    with no fallback when the text does not parse. *)
Definition parse_account (account : actor_row) : Actor + JsError :=
  match ar_details account with
  | inl text =>
    match JSON_parse text with
    | inl json =>
      inl {| actor_details := json; actor_fields := ar_fields account |}
    | inr e => inr e
    end
  | inr json =>
    inl {| actor_details := json; actor_fields := ar_fields account |}
  end.

Definition getAccountById_operation (userId : string)
    : operation Store (option Actor) :=
  fun d =>
    match find_account_by_id userId d with
    | (inl accounts, d') =>
      match accounts with
      | [] => (inl None, d')
      | account :: _ =>
        match parse_account account with
        | inl a => (inl (Some a), d')
        | inr e => (inr (ErrorInstance e), d')
        end
      end
    | (inr error, d') => (inr error, d')
    end.

Definition getAccountById (userId : string) (b : CircuitBreaker)
    (w : world Store) : settled (option Actor) :=
  withDatabase rcfg bcfg random (getAccountById_operation userId)
    "getAccountById" b w.

(** The account handed to [createAccount]; an optional field left out is
    [None]. *)
Record AccountInput : Type := mkAccountInput {
  ai_id : option string;
  ai_name : string;
  ai_username : option string;
  ai_email : option string;
  ai_avatarUrl : option string;
  ai_details : option Json
}.

Record account_doc : Type := mkAccountDoc {
  ad_id : string;
  ad_name : string;
  ad_username : string;
  ad_email : string;
  ad_avatarUrl : string;
  ad_details : option string
}.

(** [value || ""] on an optional string. *)
Definition or_empty (value : option string) : string :=
  match value with Some s => s | None => "" end.

(** [_db.collection("accounts").insertOne(doc)] *)
Variable insert_account : account_doc -> operation Store unit.

(** [JSON.stringify(account.details)]; [JSON.stringify(undefined)] is
    [undefined]. *)
Definition stringify_details (details : option Json)
    : option string + js_thrown :=
  match details with
  | Some json => JSON_stringify json
  | None => inl None
  end.

(** [account.id ?? uuidv4()] draws an identifier only when there is no
    [id].  The document is built before [insertOne] is called; when
    [JSON.stringify] throws, the [catch] block returns [false] with no
    request sent. *)
Definition createAccount_operation (account : AccountInput)
    : operation Store bool :=
  fun d =>
    let '(accountId, d0) :=
      match ai_id account with
      | Some id => (id, d)
      | None => uuidv4 d
      end in
    match stringify_details (ai_details account) with
    | inl details =>
      true_unless_thrown
        (insert_account
           {| ad_id := accountId;
              ad_name := ai_name account;
              ad_username := or_empty (ai_username account);
              ad_email := or_empty (ai_email account);
              ad_avatarUrl := or_empty (ai_avatarUrl account);
              ad_details := details |})
        d0
    | inr _ => (inl false, d0)
    end.

Definition createAccount (account : AccountInput) (b : CircuitBreaker)
    (w : world Store) : settled bool :=
  withDatabase rcfg bcfg random (createAccount_operation account)
    "createAccount" b w.

(** [{ id: relationshipId, userA, userB, userId: userA }] *)
Record relationship_doc : Type := mkRelationshipDoc {
  rd_id : string;
  rd_userA : string;
  rd_userB : string;
  rd_userId : string
}.

(** [_db.collection("relationships").insertOne(doc)] *)
Variable insert_relationship : relationship_doc -> operation Store unit.

Definition createRelationship_operation (userA userB : string)
    : operation Store bool :=
  fun d =>
    let '(relationshipId, d0) := uuidv4 d in
    true_unless_thrown
      (insert_relationship
         {| rd_id := relationshipId; rd_userA := userA; rd_userB := userB;
            rd_userId := userA |}) d0.

Definition createRelationship (userA userB : string) (b : CircuitBreaker)
    (w : world Store) : settled bool :=
  if negb (truthy_string userA) || negb (truthy_string userB) then
    reject_with "userA and userB are required" b w
  else
    withDatabase rcfg bcfg random (createRelationship_operation userA userB)
      "createRelationship" b w.

(** [_db.collection("rooms").insertOne({ id: newRoomId })] *)
Variable insert_room : string -> operation Store unit.

(** [const newRoomId = roomId || uuidv4();] *)
Definition createRoom_operation (roomId : option string)
    : operation Store string :=
  fun d =>
    let '(newRoomId, d0) :=
      if truthy_id roomId then (or_empty roomId, d) else uuidv4 d in
    match insert_room newRoomId d0 with
    | (inl _, d') => (inl newRoomId, d')
    | (inr error, d') => (inr error, d')
    end.

Definition createRoom (roomId : option string) (b : CircuitBreaker)
    (w : world Store) : settled string :=
  withDatabase rcfg bcfg random (createRoom_operation roomId) "createRoom"
    b w.

End DataAccess.

(** ** Scenarios used to state and exercise the properties *)

(** [reject_run op n d last]: the operation rejects [n] times in a row from
    store [d]; the last thrown value and the store it leaves. *)
Fixpoint reject_run {Store T : Type} (op : operation Store T) (n : nat)
    (d : Store) (last : js_thrown) : option (js_thrown * Store) :=
  match n with
  | O => Some (last, d)
  | S n' =>
    match op d with
    | (inr error, d') => reject_run op n' d' error
    | (inl _, _) => None
    end
  end.

(** A single, unprotected [await operation()]. *)
Definition call_once {Store T : Type} (op : operation Store T)
    : action Store T js_thrown :=
  fun w =>
    match op (dep w) with
    | (inl v, d) => (Returned v, [EvInvoke None], set_dep d w)
    | (inr error, d) => (Thrown error, [EvInvoke (Some error)], set_dep d w)
    end.

Definition is_returned {T E : Type} (r : result T E) : bool :=
  match r with Returned _ => true | Thrown _ => false end.

(** The error class named by the specification for an exhausted retry. *)
Definition is_RetryExhaustedError (e : js_thrown) : Prop :=
  match e with
  | ErrorInstance err => err_name err = "RetryExhaustedError"
  | OtherValue _ => False
  end.

(** A remote store that counts the requests it has served, and an operation
    that rejects the first [n] requests with [Error("boom")] and resolves
    with ["ok"] afterwards. *)
Definition boom : js_thrown := ErrorInstance (new_Error "boom").

Definition flaky (n : nat) : operation nat string :=
  fun served =>
    if served <? n then (inr boom, S served) else (inl "ok", S served).

(** [Math.random()] returning 0.5 at every draw. *)
Definition half : nat -> Q := fun _ => (1 # 2)%Q.


Definition w0 : world nat := {| dep := 0; clock := 0; draws := 0 |}.

(** Five calls in a row through the adapter's breaker, each a single
    invocation of an operation that keeps rejecting. *)
Definition five_failures
    : list (result string adapter_error) * CircuitBreaker * world nat :=
  execute_all adapter_breaker (repeat (0%Q, call_once (flaky 9)) 5)
    initial_breaker w0.

(** Then, once the reset timeout has elapsed, three trial calls in a row
    of an operation that resolves. *)
Definition three_trials
    : list (result string adapter_error) * CircuitBreaker * world nat :=
  execute_all adapter_breaker (repeat (0%Q, call_once (flaky 0)) 3)
    (enter_half_open (snd (fst five_failures)))
    (advance 60000 (snd five_failures)).

(** A sample remote collection of thirty memories whose request honours
    [limit(n)] by truncating to the first [n] records, and a request for
    fifty memories. *)
Definition sample_rows : list (@memory_row string unit) :=
  repeat {| row_content := inl "{}"; row_fields := tt |} 30.

Definition sample_find (query : memories_query) (limit : option Q)
    : operation nat (list (@memory_row string unit)) :=
  fun served =>
    (inl match limit with
         | Some n => firstn (Z.to_nat (Qfloor n)) sample_rows
         | None => sample_rows
         end,
     S served).

Definition sample_parse (text : string) : string + JsError := inl text.

Definition sample_params : GetMemoriesParams :=
  {| roomId := "room"; count := Some 50%Q; unique := None;
     tableName := "messages"; agentId := None; start := None;
     end_ := None |}.

(** The same request with no count, the memories of the collection once
    parsed, and the call that asks for fifty of them. *)
Definition sample_params_no_count : GetMemoriesParams :=
  {| roomId := "room"; count := None; unique := None;
     tableName := "messages"; agentId := None; start := None;
     end_ := None |}.

Definition sample_memories : list (@Memory string unit) :=
  repeat {| content := "{}"; fields := tt |} 30.

Definition capped_call
    : result (list (@Memory string unit)) adapter_error * list event
      * CircuitBreaker * world nat :=
  getMemories adapter_retry adapter_breaker half sample_parse sample_find
    sample_params initial_breaker w0.

(** One call of the adapter's executor whose operation rejects on every
    attempt of the budget. *)
Definition exhausted_call
    : result string adapter_error * list event * CircuitBreaker * world nat :=
  withDatabase adapter_retry adapter_breaker half (flaky 3) "query"
    initial_breaker w0.

(** Sample requests for the other methods: one that resolves with a given
    answer and one that rejects with [Error("boom")], both counted by the
    environment; an identifier generator; participant records of two
    rooms, one of them twice. *)
Definition resolving {A : Type} (answer : A) : operation nat A :=
  fun served => (inl answer, S served).

Definition rejecting {A : Type} : operation nat A :=
  fun served => (inr boom, S served).

Definition sample_uuid : nat -> string * nat :=
  fun served => ("6f1c0a52-3b7e-4d0a-9c1e-000000000001", served).

Definition sample_participants : list participant_row :=
  [ {| pr_userId := Some "u1"; pr_roomId := Some "r1"; pr_userState := None |};
    {| pr_userId := Some "u2"; pr_roomId := Some "r2"; pr_userState := None |};
    {| pr_userId := Some "u2"; pr_roomId := Some "r1"; pr_userState := None |} ].

Definition sample_params_no_table : GetMemoriesParams :=
  {| roomId := "room"; count := Some 50%Q; unique := None;
     tableName := ""; agentId := None; start := None; end_ := None |}.

Definition sample_search_params : SearchByEmbeddingParams :=
  {| se_match_threshold := None; se_count := Some 5%Q; se_agentId := None;
     se_roomId := Some "room"; se_unique := None;
     se_tableName := "messages" |}.

Definition sample_embedding : list js_number :=
  [Finite (1 # 3); NotFinite].

(** A search with a two-element embedding where 384 are configured, and
    the same search where two are. *)
Definition wrong_dimension_call
    : result (list (@Memory string unit)) adapter_error * list event
      * CircuitBreaker * world nat :=
  searchMemoriesByEmbedding adapter_retry adapter_breaker half sample_parse
    384 (fun q => q) (fun _ _ => resolving sample_rows) sample_embedding
    sample_search_params initial_breaker w0.


(** A lookup of actor details whose first request keeps being rejected. *)
Definition actor_details_call
    : result (list (@Actor string unit)) adapter_error * list event
      * CircuitBreaker * world nat :=
  getActorDetails adapter_retry adapter_breaker half sample_parse "{}"
    (fun _ => rejecting) (fun _ => rejecting) "room" initial_breaker w0.

(** Calls of further methods on those samples, through a new breaker. *)
Definition empty_rooms_call
    : result (list (@Memory string unit)) adapter_error * list event
      * CircuitBreaker * world nat :=
  getMemoriesByRoomIds adapter_retry adapter_breaker half sample_parse
    (fun _ => resolving sample_rows)
    {| mr_roomIds := []; mr_agentId := None; mr_tableName := "messages" |}
    initial_breaker w0.

Definition rooms_call
    : result (list string) adapter_error * list event * CircuitBreaker
      * world nat :=
  getRoomsForParticipants adapter_retry adapter_breaker half
    (new_Error "undefined") (fun _ => resolving sample_participants)
    ["u1"; "u2"] initial_breaker w0.

Definition add_participant_call
    : result bool adapter_error * list event * CircuitBreaker * world nat :=
  addParticipant adapter_retry adapter_breaker half sample_uuid
    (fun _ => rejecting) "u1" "r1" initial_breaker w0.

Definition get_cache_call
    : result (option string) adapter_error * list event * CircuitBreaker
      * world nat :=
  getCache adapter_retry adapter_breaker half (fun _ _ => rejecting) "key"
    "agent" initial_breaker w0.

Definition missing_memory_call
    : result (option (@Memory string unit)) adapter_error * list event
      * CircuitBreaker * world nat :=
  getMemoryById adapter_retry adapter_breaker half sample_parse
    (fun _ => resolving []) "missing" initial_breaker w0.

Definition count_call
    : result (option Q) adapter_error * list event * CircuitBreaker
      * world nat :=
  countMemories adapter_retry adapter_breaker half
    (fun _ => resolving sample_rows) "room" None (Some "messages")
    initial_breaker w0.

(** A serialiser that gives the text back, and one that throws as
    [JSON.stringify] does on a circular structure. *)
Definition sample_stringify (json : string) : option string + js_thrown :=
  inl (Some json).

Definition circular_structure : js_thrown :=
  ErrorInstance (mkJsError "TypeError" "Converting circular structure to JSON").

Definition refusing_stringify (json : string) : option string + js_thrown :=
  inr circular_structure.

Definition log_call
    : result unit adapter_error * list event * CircuitBreaker * world nat :=
  log adapter_retry adapter_breaker half sample_stringify
    sample_uuid (fun served => inject_Z (Z.of_nat served))
    (fun _ => resolving tt)
    {| lg_body := ObjectBody "{}"; lg_userId := ""; lg_roomId := "room";
       lg_type := "note" |}
    initial_breaker w0.

(** An account whose details are not JSON, a parser that refuses them,
    and calls about accounts and rooms. *)
Definition syntax_error : JsError :=
  mkJsError "SyntaxError" "Unexpected token o in JSON at position 1".

Definition refusing_parse (text : string) : string + JsError :=
  inr syntax_error.

Definition malformed_account : @actor_row string unit :=
  {| ar_details := inl "not json"; ar_fields := tt |}.

Definition malformed_account_call
    : result (option (@Actor string unit)) adapter_error * list event
      * CircuitBreaker * world nat :=
  getAccountById adapter_retry adapter_breaker half refusing_parse
    (fun _ => resolving [malformed_account]) "u1" initial_breaker w0.

Definition sample_account : @AccountInput string :=
  {| ai_id := None; ai_name := "Ada"; ai_username := None;
     ai_email := Some "ada@example.org"; ai_avatarUrl := None;
     ai_details := Some "{}" |}.

Definition create_account_call
    : result bool adapter_error * list event * CircuitBreaker * world nat :=
  createAccount adapter_retry adapter_breaker half sample_stringify
    sample_uuid (fun _ => rejecting) sample_account initial_breaker w0.

(** The same calls when the value handed over cannot be serialised; the
    remote store would accept any document. *)
Definition log_unserialisable_call
    : result unit adapter_error * list event * CircuitBreaker * world nat :=
  log adapter_retry adapter_breaker half refusing_stringify
    sample_uuid (fun served => inject_Z (Z.of_nat served))
    (fun _ => resolving tt)
    {| lg_body := ObjectBody "{}"; lg_userId := "user"; lg_roomId := "room";
       lg_type := "note" |}
    initial_breaker w0.

Definition create_account_unserialisable_call
    : result bool adapter_error * list event * CircuitBreaker * world nat :=
  createAccount adapter_retry adapter_breaker half refusing_stringify
    sample_uuid (fun _ => resolving tt) sample_account initial_breaker w0.

Definition create_room_call
    : result string adapter_error * list event * CircuitBreaker * world nat :=
  createRoom adapter_retry adapter_breaker half sample_uuid
    (fun _ => resolving tt) (Some "r7") initial_breaker w0.

(** * Properties *)

(** ** Rounding to the nearest double *)

Section Rounding.

Local Open Scope Q_scope.

Lemma round_half_even_bounds (s : Q) :
  (Qfloor s <= round_half_even s <= Qfloor s + 1)%Z.
Proof.
  unfold round_half_even.
  destruct (s - inject_Z (Qfloor s) ?= 1 # 2); [destruct (Z.even _)| |]; lia.
Qed.

Lemma round_half_even_integer (n : Z) : round_half_even (inject_Z n) = n.
Proof.
  unfold round_half_even. rewrite Qfloor_Z.
  assert (H : inject_Z n - inject_Z n < 1 # 2).
  { setoid_replace (inject_Z n - inject_Z n) with 0 by ring. reflexivity. }
  rewrite Qlt_alt in H. rewrite H. reflexivity.
Qed.

Lemma round_half_even_monotone (s t : Q) :
  s <= t -> (round_half_even s <= round_half_even t)%Z.
Proof.
  intros Hst.
  pose proof (Qfloor_resp_le _ _ Hst) as Hfloor.
  pose proof (round_half_even_bounds s) as Hs.
  pose proof (round_half_even_bounds t) as Ht.
  destruct (Z.eq_dec (Qfloor s) (Qfloor t)) as [Heq|Hne]; [|lia].
  unfold round_half_even in *. rewrite <- Heq in *.
  set (f := Qfloor s) in *.
  assert (Hrem : s - inject_Z f <= t - inject_Z f) by lra.
  destruct (s - inject_Z f ?= 1 # 2) eqn:Cs;
    destruct (t - inject_Z f ?= 1 # 2) eqn:Ct;
    try (destruct (Z.even f)); try lia;
    try rewrite <- Qeq_alt in *; try rewrite <- Qlt_alt in *;
    try rewrite <- Qgt_alt in *; lra.
Qed.

Lemma ulp_exponent_nonneg (X : Q) : (0 <= ulp_exponent X)%Z.
Proof. unfold ulp_exponent. lia. Qed.

Lemma ulp_exponent_monotone (X Y : Q) :
  X <= Y -> (ulp_exponent X <= ulp_exponent Y)%Z.
Proof.
  intros H. unfold ulp_exponent.
  pose proof (Z.log2_le_mono _ _ (Qfloor_resp_le _ _ H)). lia.
Qed.

Lemma two_power_positive (e : Z) : (0 <= e)%Z -> 0 < inject_Z (2 ^ e).
Proof.
  intros He. change 0 with (inject_Z 0). rewrite <- Zlt_Qlt.
  apply Z.pow_pos_nonneg; lia.
Qed.

(** Below the next binade: the scaled value is less than 2^53 units. *)
Lemma scaled_below_next_binade (X : Q) :
  0 <= X -> X < inject_Z (2 ^ 53 * 2 ^ ulp_exponent X).
Proof.
  intros HX.
  apply Qlt_le_trans with (inject_Z (Qfloor X + 1)).
  - apply Qlt_floor.
  - rewrite <- Zle_Qle.
    assert (Hf : (0 <= Qfloor X)%Z).
    { change 0%Z with (Qfloor 0). apply Qfloor_resp_le; exact HX. }
    rewrite <- Z.pow_add_r by (try apply ulp_exponent_nonneg; lia).
    unfold ulp_exponent.
    destruct (Z.eq_dec (Qfloor X) 0) as [H0|H0].
    + rewrite H0. simpl Z.log2.
      replace (53 + (Z.max 0 52 - 52))%Z with 53%Z by lia. lia.
    + pose proof (Z.log2_spec (Qfloor X) ltac:(lia)) as [_ Hup].
      apply Z.le_trans with (2 ^ Z.succ (Z.log2 (Qfloor X)))%Z; [lia|].
      apply Z.pow_le_mono_r; lia.
Qed.

(** In a binade above the subnormal range the scaled value is at least
    2^52 units. *)
Lemma scaled_above_binade_start (X : Q) :
  (0 < ulp_exponent X)%Z -> inject_Z (2 ^ 52 * 2 ^ ulp_exponent X) <= X.
Proof.
  intros Hu. unfold ulp_exponent in *.
  apply Qle_trans with (inject_Z (Qfloor X)); [|apply Qfloor_le].
  rewrite <- Zle_Qle.
  rewrite <- Z.pow_add_r by lia.
  assert (Hlog : (52 < Z.log2 (Qfloor X))%Z) by lia.
  replace (52 + (Z.max (Z.log2 (Qfloor X)) 52 - 52))%Z
    with (Z.log2 (Qfloor X)) by lia.
  assert (Hpos : (0 < Qfloor X)%Z).
  { destruct (Z.lt_ge_cases 0 (Qfloor X)) as [H|H]; [exact H|].
    rewrite (Z.log2_nonpos _ H) in Hlog. lia. }
  apply (Z.log2_spec _ Hpos).
Qed.

Lemma binary64_scaled_monotone (X Y : Q) :
  0 <= X -> X <= Y -> binary64_scaled X <= binary64_scaled Y.
Proof.
  intros HX HXY.
  assert (HY : 0 <= Y) by lra.
  pose proof (ulp_exponent_monotone _ _ HXY) as Hexp.
  pose proof (ulp_exponent_nonneg X) as HeX.
  pose proof (two_power_positive _ HeX) as HuX.
  pose proof (two_power_positive _ (ulp_exponent_nonneg Y)) as HuY.
  unfold binary64_scaled. cbv zeta.
  destruct (Z.eq_dec (ulp_exponent X) (ulp_exponent Y)) as [Heq|Hne].
  - rewrite <- Heq.
    apply Qmult_le_compat_r; [|apply Qlt_le_weak, HuX].
    rewrite <- Zle_Qle. apply round_half_even_monotone.
    apply Qmult_le_compat_r; [exact HXY|].
    apply Qlt_le_weak, Qinv_lt_0_compat, HuX.
  - assert (Hlt : (ulp_exponent X < ulp_exponent Y)%Z) by lia.
    apply Qle_trans with (inject_Z (2 ^ 53 * 2 ^ ulp_exponent X)).
    + rewrite inject_Z_mult.
      apply Qmult_le_compat_r; [|apply Qlt_le_weak, HuX].
      rewrite <- Zle_Qle.
      rewrite <- (round_half_even_integer (2 ^ 53)).
      apply round_half_even_monotone.
      apply Qle_shift_div_r; [exact HuX|].
      rewrite <- inject_Z_mult.
      apply Qlt_le_weak, scaled_below_next_binade, HX.
    + apply Qle_trans with (inject_Z (2 ^ 52 * 2 ^ ulp_exponent Y)).
      * rewrite <- Zle_Qle.
        rewrite <- !Z.pow_add_r by lia.
        apply Z.pow_le_mono_r; lia.
      * rewrite inject_Z_mult.
        apply Qmult_le_compat_r; [|apply Qlt_le_weak, HuY].
        rewrite <- Zle_Qle.
        rewrite <- (round_half_even_integer (2 ^ 52)).
        apply round_half_even_monotone.
        apply Qle_shift_div_l; [exact HuY|].
        rewrite <- inject_Z_mult.
        apply scaled_above_binade_start. lia.
Qed.

Lemma binary64_scaled_nonneg (X : Q) : 0 <= X -> 0 <= binary64_scaled X.
Proof.
  intros HX. unfold binary64_scaled. cbv zeta.
  pose proof (two_power_positive _ (ulp_exponent_nonneg X)) as Hu.
  apply Qmult_le_0_compat; [|apply Qlt_le_weak, Hu].
  change 0 with (inject_Z 0). rewrite <- Zle_Qle.
  rewrite <- (round_half_even_integer 0).
  apply round_half_even_monotone.
  apply Qle_shift_div_l; [exact Hu|]. rewrite Qmult_0_l. exact HX.
Qed.

Lemma binary64_nonneg_monotone (x y : Q) :
  0 <= x -> x <= y -> binary64_nonneg x <= binary64_nonneg y.
Proof.
  intros Hx Hxy. unfold binary64_nonneg. rewrite !Qred_correct.
  assert (HK : 0 < inject_Z (2 ^ 1074)) by (apply two_power_positive; lia).
  apply Qmult_le_compat_r; [|apply Qlt_le_weak, Qinv_lt_0_compat, HK].
  apply binary64_scaled_monotone.
  - apply Qmult_le_0_compat; [exact Hx | apply Qlt_le_weak, HK].
  - apply Qmult_le_compat_r; [exact Hxy | apply Qlt_le_weak, HK].
Qed.

Lemma binary64_nonneg_nonneg (x : Q) : 0 <= x -> 0 <= binary64_nonneg x.
Proof.
  intros Hx. unfold binary64_nonneg. rewrite Qred_correct.
  assert (HK : 0 < inject_Z (2 ^ 1074)) by (apply two_power_positive; lia).
  apply Qmult_le_0_compat; [|apply Qlt_le_weak, Qinv_lt_0_compat, HK].
  apply binary64_scaled_nonneg.
  apply Qmult_le_0_compat; [exact Hx | apply Qlt_le_weak, HK].
Qed.

(** Rounding to binary64 keeps the order. *)
Lemma binary64_monotone (x y : Q) : x <= y -> binary64 x <= binary64 y.
Proof.
  intros Hxy. unfold binary64.
  destruct (Qlt_le_dec x 0) as [Hx|Hx]; destruct (Qlt_le_dec y 0) as [Hy|Hy].
  - rewrite !Qred_correct.
    pose proof (binary64_nonneg_monotone (- y) (- x) ltac:(lra) ltac:(lra)).
    lra.
  - rewrite Qred_correct.
    pose proof (binary64_nonneg_nonneg (- x) ltac:(lra)).
    pose proof (binary64_nonneg_nonneg y Hy). lra.
  - lra.
  - apply binary64_nonneg_monotone; assumption.
Qed.

Lemma binary64_zero : binary64 0 == 0.
Proof. vm_compute. reflexivity. Qed.

(** A product of non-negative numbers at most [bound] rounds into
    [0, binary64 bound]; a sum is rounded between the roundings of its
    bounds. *)
Lemma js_mul_range (x y bound : Q) :
  0 <= x * y -> x * y <= bound ->
  0 <= js_mul x y /\ js_mul x y <= binary64 bound.
Proof.
  intros H0 Hb. unfold js_mul. split.
  - rewrite <- binary64_zero. apply binary64_monotone, H0.
  - apply binary64_monotone, Hb.
Qed.

Lemma js_add_range (x y lower upper : Q) :
  lower <= y -> y <= upper ->
  binary64 (x + lower) <= js_add x y /\ js_add x y <= binary64 (x + upper).
Proof.
  intros Hl Hu. unfold js_add.
  split; apply binary64_monotone; lra.
Qed.

End Rounding.

(** ** The retry loop *)

Section RetryFacts.

Context {Store T : Type}.
Variable cfg : RetryConfig.
Variable random : nat -> Q.
Variable op : operation Store T.

Lemma invocations_cons_invoke (o : option js_thrown) (evs : list event) :
  invocations (EvInvoke o :: evs) = S (invocations evs).
Proof. reflexivity. Qed.

Lemma invocations_cons_other (ev : event) (evs : list event) :
  is_invoke ev = false -> invocations (ev :: evs) = invocations evs.
Proof. unfold invocations; simpl; intros ->; reflexivity. Qed.

(** Unfolding of one pass of the loop, by the outcome of the attempt. *)
Lemma retry_loop_resolved iterations attempt last w v d :
  op (dep w) = (inl v, d) ->
  retry_loop cfg random op (S iterations) attempt last w
  = (Returned v, [EvInvoke None], set_dep d w).
Proof. intros H; simpl; rewrite H; reflexivity. Qed.

Lemma retry_loop_final iterations attempt last w error d :
  op (dep w) = (inr error, d) ->
  maxRetries cfg <= attempt ->
  retry_loop cfg random op (S iterations) attempt last w
  = (Thrown (ErrorInstance (as_Error error)),
     [EvInvoke (Some error); EvError (error_text error) attempt],
     set_dep d w).
Proof.
  intros H Hle; simpl; rewrite H.
  destruct (Nat.ltb_spec attempt (maxRetries cfg)); [lia | reflexivity].
Qed.

Lemma retry_loop_retry iterations attempt last w error d :
  op (dep w) = (inr error, d) ->
  attempt < maxRetries cfg ->
  retry_loop cfg random op (S iterations) attempt last w
  = let delay :=
      js_add (backoffDelay cfg attempt)
        (js_mul (random (draws w)) (jitterMax cfg)) in
    let '(r, evs, w'') :=
      retry_loop cfg random op iterations (S attempt) error
        {| dep := d; clock := (clock w + delay)%Q; draws := S (draws w) |} in
    (r,
     EvInvoke (Some error)
       :: EvWarn attempt (maxRetries cfg) (error_text error) delay
       :: EvSleep delay :: evs,
     w'').
Proof.
  intros H Hlt; simpl; rewrite H.
  destruct (Nat.ltb_spec attempt (maxRetries cfg)); [reflexivity | lia].
Qed.

(** After [j] rejected attempts within the budget, a resolved attempt ends
    the loop at once. *)
Lemma retry_loop_resolves_after j :
  forall iterations attempt last w e d1 v d2,
    reject_run op j (dep w) last = Some (e, d1) ->
    op d1 = (inl v, d2) ->
    j < iterations ->
    attempt + j <= maxRetries cfg ->
    exists evs w',
      retry_loop cfg random op iterations attempt last w = (Returned v, evs, w')
      /\ dep w' = d2
      /\ draws w' = draws w + j
      /\ invocations evs = S j
      /\ List.length (delays evs) = j
      /\ List.last evs (EvSleep 0) = EvInvoke None.
Proof.
  induction j as [|j IH]; intros iterations attempt last w e d1 v d2 Hrej Hop Hit Hatt.
  - simpl in Hrej. injection Hrej as <- <-.
    destruct iterations as [|rest]; [lia|].
    rewrite (retry_loop_resolved _ _ _ _ _ _ Hop).
    eexists _, _; split; [reflexivity|].
    simpl. repeat split; try reflexivity. lia.
  - simpl in Hrej.
    destruct (op (dep w)) as [[v0|error] d] eqn:Hfirst; [discriminate|].
    destruct iterations as [|rest]; [lia|].
    rewrite (retry_loop_retry _ _ _ _ _ _ Hfirst) by lia.
    cbv zeta.
    set (w1 := {| dep := d; clock := _; draws := S (draws w) |}).
    destruct (IH rest (S attempt) error w1 e d1 v d2 Hrej Hop) as
      (evs & w' & Heq & Hdep & Hdraws & Hinv & Hdel & Hlast); [lia | lia |].
    rewrite Heq.
    eexists _, _; split; [reflexivity|].
    repeat split.
    + exact Hdep.
    + rewrite Hdraws. simpl. lia.
    + rewrite invocations_cons_invoke.
      rewrite !invocations_cons_other by reflexivity. now rewrite Hinv.
    + simpl. now rewrite Hdel.
    + destruct evs as [|ev evs']; [discriminate Hinv|].
      exact Hlast.
Qed.

(** When every pass of the loop rejects, the last pass throws the last
    error and nothing follows. *)
Lemma retry_loop_exhausted j :
  forall attempt last w e d',
    reject_run op (S j) (dep w) last = Some (e, d') ->
    attempt + j = maxRetries cfg ->
    exists evs w',
      retry_loop cfg random op (S j) attempt last w
      = (Thrown (ErrorInstance (as_Error e)), evs, w')
      /\ dep w' = d'
      /\ invocations evs = S j
      /\ List.length (delays evs) = j
      /\ List.last evs (EvSleep 0) = EvError (error_text e) (maxRetries cfg).
Proof.
  induction j as [|j IH]; intros attempt last w e d' Hrej Hatt.
  - simpl in Hrej.
    destruct (op (dep w)) as [[v0|error] d] eqn:Hfirst; [discriminate|].
    injection Hrej as <- <-.
    rewrite (retry_loop_final _ _ _ _ _ _ Hfirst) by lia.
    eexists _, _; split; [reflexivity|].
    simpl. repeat split; try reflexivity.
    f_equal. lia.
  - change (reject_run op (S (S j)) (dep w) last)
      with (match op (dep w) with
            | (inr error, d) => reject_run op (S j) d error
            | (inl _, _) => None
            end) in Hrej.
    destruct (op (dep w)) as [[v0|error] d] eqn:Hfirst; [discriminate|].
    rewrite (retry_loop_retry _ _ _ _ _ _ Hfirst) by lia.
    cbv zeta.
    set (w1 := {| dep := d; clock := _; draws := S (draws w) |}).
    destruct (IH (S attempt) error w1 e d' Hrej) as
      (evs & w' & Heq & Hdep & Hinv & Hdel & Hlast); [lia|].
    rewrite Heq.
    eexists _, _; split; [reflexivity|].
    repeat split.
    + exact Hdep.
    + rewrite invocations_cons_invoke.
      rewrite !invocations_cons_other by reflexivity. now rewrite Hinv.
    + simpl. now rewrite Hdel.
    + destruct evs as [|ev evs']; [discriminate Hinv|].
      exact Hlast.
Qed.

End RetryFacts.

Section RetryOutcomes.

Context {Store T : Type}.
Variable cfg : RetryConfig.
Variable random : nat -> Q.
Variable op : operation Store T.


(** A value returned by the loop is one the operation resolved with, in
    its last invocation. *)
Lemma retry_loop_returned iterations :
  forall attempt last w v evs w',
    retry_loop cfg random op iterations attempt last w = (Returned v, evs, w') ->
    exists d,
      op d = (inl v, dep w')
      /\ List.last evs (EvSleep 0) = EvInvoke None.
Proof.
  induction iterations as [|rest IH]; intros attempt last w v evs w'; simpl.
  - discriminate.
  - destruct (op (dep w)) as [[v0|error] d] eqn:Hop.
    + intros H; injection H as <- <- <-. exists (dep w); split; [exact Hop | reflexivity].
    + destruct (attempt <? maxRetries cfg).
      * destruct (retry_loop cfg random op rest (S attempt) error _)
          as [[r1 evs1] w1] eqn:Hrec.
        intros H; injection H as -> <- <-.
        destruct (IH _ _ _ _ _ _ Hrec) as (d0 & Hd0 & Hlast).
        exists d0; split; [exact Hd0|].
        destruct evs1 as [|ev evs1']; [discriminate Hlast | exact Hlast].
      * discriminate.
Qed.

(** An error thrown by the loop is the last one the operation threw, after
    every pass of the loop has invoked it. *)
Lemma retry_loop_thrown iterations :
  forall attempt last w t evs w',
    1 <= iterations ->
    iterations + attempt = S (maxRetries cfg) ->
    retry_loop cfg random op iterations attempt last w = (Thrown t, evs, w') ->
    exists error d,
      op d = (inr error, dep w')
      /\ t = ErrorInstance (as_Error error)
      /\ invocations evs = iterations
      /\ List.last evs (EvSleep 0) = EvError (error_text error) (maxRetries cfg).
Proof.
  induction iterations as [|rest IH]; intros attempt last w t evs w' Hpos Hsum;
    [lia|]; simpl.
  destruct (op (dep w)) as [[v0|error] d] eqn:Hop; [discriminate|].
  destruct (Nat.ltb_spec attempt (maxRetries cfg)) as [Hlt|Hge].
  - destruct (retry_loop cfg random op rest (S attempt) error _)
      as [[r1 evs1] w1] eqn:Hrec.
    intros H; injection H as -> <- <-.
    assert (Hrest : 1 <= rest) by lia.
    assert (Hsum' : rest + S attempt = S (maxRetries cfg)) by lia.
    destruct (IH _ _ _ _ _ _ Hrest Hsum' Hrec)
      as (e0 & d0 & Hd0 & Ht & Hinv & Hlast).
    exists e0, d0; repeat split; try assumption.
    + rewrite invocations_cons_invoke.
      rewrite !invocations_cons_other by reflexivity. now rewrite Hinv.
    + destruct evs1 as [|ev evs1']; [|exact Hlast].
      unfold invocations in Hinv; simpl in Hinv; lia.
  - intros H; injection H as <- <- <-.
    exists error, (dep w); repeat split.
    + exact Hop.
    + unfold invocations; simpl. lia.
    + simpl. f_equal. lia.
Qed.



End RetryOutcomes.

(** ** Claims about the retry loop *)

(** When every attempt of the budget rejects, the call ends with the last
    error after exactly [maxRetries] invocations. *)
Lemma withRetry_exhausted_run
    {Store T : Type} (cfg : RetryConfig) (random : nat -> Q)
    (op : operation Store T) (w : world Store) (e : js_thrown) (d' : Store) :
  1 <= maxRetries cfg ->
  reject_run op (maxRetries cfg) (dep w)
    (ErrorInstance (new_Error "Unknown error")) = Some (e, d') ->
  exists evs w',
    withRetry cfg random op w = (Thrown (ErrorInstance (as_Error e)), evs, w')
    /\ invocations evs = maxRetries cfg
    /\ dep w' = d'
    /\ List.last evs (EvSleep 0) = EvError (error_text e) (maxRetries cfg).
Proof.
  intros Hpos Hrej.
  unfold withRetry.
  destruct (maxRetries cfg) as [|j] eqn:Hmax; [lia|].
  destruct (retry_loop_exhausted cfg random op j 1 _ w e d' Hrej)
    as (evs & w' & Heq & Hdep & Hinv & _ & Hlast); [lia|].
  exists evs, w'. rewrite Hmax in Hlast. repeat split; assumption.
Qed.

(** C1 (as amended): when the operation rejects on all [maxRetries]
    attempts, [withRetry] invokes it exactly [maxRetries] times and no more,
    and throws the last underlying error itself (a thrown value that is not
    an [Error] is wrapped by [new Error(String(value))]); the total attempt
    count is written to the error log entry that ends the call and is not
    carried by the thrown error. *)
Theorem withRetry_exhausted_throws_last_error :
  forall (Store T : Type) (cfg : RetryConfig) (random : nat -> Q)
         (op : operation Store T) (w : world Store)
         (e : js_thrown) (d' : Store),
    1 <= maxRetries cfg ->
    reject_run op (maxRetries cfg) (dep w)
      (ErrorInstance (new_Error "Unknown error")) = Some (e, d') ->
    exists evs w',
      withRetry cfg random op w = (Thrown (ErrorInstance (as_Error e)), evs, w')
      /\ invocations evs = maxRetries cfg
      /\ dep w' = d'
      /\ List.last evs (EvSleep 0) = EvError (error_text e) (maxRetries cfg).
Proof.
  intros Store T cfg random op w e d'. apply withRetry_exhausted_run.
Qed.

Lemma withRetry_exhausted_throws_last_error_witness :
  exists evs w',
    withRetry adapter_retry half (flaky 3) w0
    = (Thrown (ErrorInstance (as_Error boom)), evs, w')
    /\ invocations evs = 3
    /\ dep w' = 3
    /\ List.last evs (EvSleep 0) = EvError "boom" 3.
Proof.
  apply (withRetry_exhausted_throws_last_error nat string adapter_retry half
           (flaky 3) w0 boom 3).
  - simpl; lia.
  - reflexivity.
Defined.

(** C1 (as stated) fails: an operation that always rejects with
    [Error("boom")] makes the adapter's [withRetry] throw that very error
    after three attempts; it is not a RetryExhaustedError, and the attempt
    count appears only in the log. *)
Lemma withRetry_exhausted_is_not_RetryExhaustedError :
  exists evs w',
    withRetry adapter_retry half (flaky 3) w0 = (Thrown boom, evs, w')
    /\ attempts evs = [Some boom; Some boom; Some boom]
    /\ List.last evs (EvSleep 0) = EvError "boom" 3
    /\ ~ is_RetryExhaustedError boom.
Proof.
  eexists _, _. split; [reflexivity|].
  repeat split. simpl. discriminate.
Qed.




(** A resolved attempt ends the loop: the value is returned and nothing
    follows the invocation. *)
Lemma withRetry_returns_at_first_success
    {Store T : Type} (cfg : RetryConfig) (random : nat -> Q)
    (op : operation Store T) (w : world Store) k last e d1 v d2 :
  1 <= k <= maxRetries cfg ->
  reject_run op (k - 1) (dep w) last = Some (e, d1) ->
  op d1 = (inl v, d2) ->
  exists evs w',
    withRetry cfg random op w = (Returned v, evs, w')
    /\ dep w' = d2
    /\ invocations evs = k
    /\ List.length (delays evs) = k - 1
    /\ List.last evs (EvSleep 0) = EvInvoke None.
Proof.
  intros Hk Hrej Hop. unfold withRetry.
  assert (Hrej' : reject_run op (k - 1) (dep w)
                    (ErrorInstance (new_Error "Unknown error"))
                  = Some (match k - 1 with
                          | O => ErrorInstance (new_Error "Unknown error")
                          | S _ => e
                          end, d1)).
  { destruct (k - 1) as [|j]; simpl in *.
    - injection Hrej as _ <-. reflexivity.
    - exact Hrej. }
  destruct (retry_loop_resolves_after cfg random op (k - 1) (maxRetries cfg) 1
              _ w _ d1 v d2 Hrej' Hop) as
    (evs & w' & Heq & Hdep & _ & Hinv & Hdel & Hlast); [lia | lia |].
  exists evs, w'. repeat split; try assumption. lia.
Qed.

(** ** The circuit breaker *)

Section BreakerFacts.

Context {Store T : Type}.
Variable cfg : BreakerConfig.

Lemma propagate_thrown (r : result T js_thrown) :
  is_thrown (propagate r) = true -> exists e, r = Thrown e.
Proof. destruct r as [v|e]; [discriminate | eauto]. Qed.

Lemma propagate_returned (r : result T js_thrown) :
  is_returned (propagate r) = true -> exists v, r = Returned v.
Proof. destruct r as [v|e]; [eauto | discriminate]. Qed.

Lemma execute_closed (act : action Store T js_thrown) b w :
  state b = CLOSED ->
  execute cfg act b w = run_and_record (record_closed cfg) act b w.
Proof. unfold execute; intros ->; reflexivity. Qed.

Lemma execute_half_open (act : action Store T js_thrown) b w :
  state b = HALF_OPEN ->
  execute cfg act b w = run_and_record (record_half_open cfg) act b w.
Proof. unfold execute; intros ->; reflexivity. Qed.

Lemma execute_open_early (act : action Store T js_thrown) b w :
  state b = OPEN ->
  (clock w - lastTransition b < resetTimeout cfg)%Q ->
  execute cfg act b w = (Thrown CircuitOpenError, [], b, w).
Proof.
  unfold execute; intros -> Hlt.
  destruct (Qlt_le_dec _ _) as [_|Hle]; [reflexivity|].
  exfalso; exact (Qlt_not_le _ _ Hlt Hle).
Qed.

Lemma execute_open_late (act : action Store T js_thrown) b w :
  state b = OPEN ->
  (resetTimeout cfg <= clock w - lastTransition b)%Q ->
  execute cfg act b w
  = run_and_record (record_half_open cfg) act (enter_half_open b) w.
Proof.
  unfold execute; intros -> Hle.
  destruct (Qlt_le_dec _ _) as [Hlt|_]; [|reflexivity].
  exfalso; exact (Qlt_not_le _ _ Hlt Hle).
Qed.

(** Consecutive failed calls through a CLOSED breaker, up to the
    threshold. *)
Lemma closed_failures_count (calls : list (Q * action Store T js_thrown)) :
  forall b w rs b' w',
    state b = CLOSED ->
    failureCount b + List.length calls <= failureThreshold cfg ->
    execute_all cfg calls b w = (rs, b', w') ->
    forallb is_thrown rs = true ->
    (failureCount b + List.length calls < failureThreshold cfg ->
     state b' = CLOSED /\ failureCount b' = failureCount b + List.length calls)
    /\ (1 <= List.length calls ->
        failureCount b + List.length calls = failureThreshold cfg ->
        state b' = OPEN /\ lastTransition b' = clock w').
Proof.
  induction calls as [|[idle act] rest IH]; intros b w rs b' w' Hst Hle Hrun Hall.
  - simpl in Hrun; injection Hrun as <- <- <-. simpl.
    split; [intros _; split; [exact Hst | lia] | lia].
  - simpl in Hrun, Hle.
    rewrite (execute_closed act b _ Hst) in Hrun.
    unfold run_and_record in Hrun.
    destruct (act (advance idle w)) as [[r evs] w1].
    destruct (execute_all cfg rest _ w1) as [[rs1 b1] w2] eqn:Hrest.
    injection Hrun as <- <- <-.
    simpl in Hall. apply andb_prop in Hall as [Hr Hrs].
    destruct (propagate_thrown r Hr) as [e ->].
    unfold record_closed in Hrest.
    destruct (Nat.leb_spec (failureThreshold cfg) (S (failureCount b)))
      as [Hopen|Hclosed].
    + destruct rest as [|call rest']; [|simpl in Hle; lia].
      simpl in Hrest; injection Hrest as <- <- <-. simpl.
      split; [lia | intros _ _; split; reflexivity].
    + edestruct IH as [Hlt Heq];
        [ | | exact Hrest | exact Hrs | ]; [reflexivity | simpl; lia | ].
      simpl in Hlt, Heq. simpl List.length.
      split.
      * intros H. destruct Hlt as [Hs Hc]; [lia|]. split; [exact Hs | lia].
      * intros _ H. destruct rest as [|call rest']; [simpl in H; lia|].
        apply Heq; simpl in *; lia.
Qed.

(** Consecutive successful trial calls through a HALF_OPEN breaker. *)
Lemma half_open_successes (calls : list (Q * action Store T js_thrown)) :
  forall b w rs b' w',
    state b = HALF_OPEN ->
    trialSuccesses b + List.length calls <= halfOpenMaxAttempts cfg ->
    execute_all cfg calls b w = (rs, b', w') ->
    forallb is_returned rs = true ->
    (trialSuccesses b + List.length calls < halfOpenMaxAttempts cfg ->
     state b' = HALF_OPEN)
    /\ (1 <= List.length calls ->
        trialSuccesses b + List.length calls = halfOpenMaxAttempts cfg ->
        state b' = CLOSED /\ failureCount b' = 0).
Proof.
  induction calls as [|[idle act] rest IH]; intros b w rs b' w' Hst Hle Hrun Hall.
  - simpl in Hrun; injection Hrun as <- <- <-. simpl.
    split; [intros _; exact Hst | lia].
  - simpl in Hrun, Hle.
    rewrite (execute_half_open act b _ Hst) in Hrun.
    unfold run_and_record in Hrun.
    destruct (act (advance idle w)) as [[r evs] w1].
    destruct (execute_all cfg rest _ w1) as [[rs1 b1] w2] eqn:Hrest.
    injection Hrun as <- <- <-.
    simpl in Hall. apply andb_prop in Hall as [Hr Hrs].
    destruct (propagate_returned r Hr) as [v ->].
    unfold record_half_open in Hrest.
    destruct (Nat.leb_spec (halfOpenMaxAttempts cfg) (S (trialSuccesses b)))
      as [Hdone|Hmore].
    + destruct rest as [|call rest']; [|simpl in Hle; lia].
      simpl in Hrest; injection Hrest as <- <- <-. simpl.
      split; [lia | intros _ _; split; reflexivity].
    + edestruct IH as [Hlt Heq];
        [ | | exact Hrest | exact Hrs | ]; [reflexivity | simpl; lia | ].
      simpl in Hlt, Heq. simpl List.length.
      split.
      * intros H. apply Hlt; lia.
      * intros _ H. destruct rest as [|call rest']; [simpl in H; lia|].
        apply Heq; simpl in *; lia.
Qed.

End BreakerFacts.

(** ** Claims about the circuit breaker *)

(** C4 (as amended): with a positive failure threshold F and the breaker
    starting CLOSED with no failure counted, after fewer than F consecutive
    failed calls the breaker is still CLOSED (having counted them), after
    exactly F it is OPEN, and the next call, when it is attempted before
    the reset timeout has elapsed since the breaker opened, fails
    immediately with the circuit-open error without invoking the wrapped
    operation. *)
Theorem breaker_opens_at_threshold :
  forall (Store T : Type) (cfg : BreakerConfig)
         (calls : list (Q * action Store T js_thrown))
         (b : CircuitBreaker) (w w' : world Store) rs b',
    1 <= failureThreshold cfg ->
    state b = CLOSED ->
    failureCount b = 0 ->
    List.length calls <= failureThreshold cfg ->
    execute_all cfg calls b w = (rs, b', w') ->
    forallb is_thrown rs = true ->
    (List.length calls < failureThreshold cfg ->
     state b' = CLOSED /\ failureCount b' = List.length calls)
    /\ (List.length calls = failureThreshold cfg ->
        state b' = OPEN
        /\ forall (idle : Q) (act : action Store T js_thrown),
             (idle < resetTimeout cfg)%Q ->
             execute cfg act b' (advance idle w')
             = (Thrown CircuitOpenError, [], b', advance idle w')).
Proof.
  intros Store T cfg calls b w w' rs b' HF Hst Hzero Hlen Hrun Hall.
  destruct (closed_failures_count cfg calls b w rs b' w' Hst
              ltac:(rewrite Hzero; exact Hlen) Hrun Hall) as [Hlt Heq].
  rewrite Hzero in Hlt, Heq. simpl in Hlt, Heq.
  split; [exact Hlt|].
  intros Hn. destruct Heq as [Hopen Htime]; [lia | exact Hn |].
  split; [exact Hopen|].
  intros idle act Hidle.
  apply execute_open_early; [exact Hopen|].
  rewrite Htime. simpl. lra.
Qed.

Lemma breaker_opens_at_threshold_witness :
  state (snd (fst five_failures)) = OPEN
  /\ forall (idle : Q) (act : action nat string js_thrown),
       (idle < 60000)%Q ->
       execute adapter_breaker act (snd (fst five_failures))
         (advance idle (snd five_failures))
       = (Thrown CircuitOpenError, [], snd (fst five_failures),
          advance idle (snd five_failures)).
Proof.
  refine (proj2 (breaker_opens_at_threshold nat string adapter_breaker
                   (repeat (0%Q, call_once (flaky 9)) 5) initial_breaker w0
                   (snd five_failures) (fst (fst five_failures))
                   (snd (fst five_failures)) _ _ _ _ _ _) _).
  - simpl; lia.
  - reflexivity.
  - reflexivity.
  - simpl; lia.
  - reflexivity.
  - reflexivity.
  - reflexivity.
Defined.

(** C4 (as stated) fails: the adapter's breaker (threshold 5, reset timeout
    60000 ms) is OPEN after five consecutive failed calls of the composed
    executor, yet a sixth call made 60000 ms later is not rejected: the
    operation is invoked and its value returned. *)
Lemma breaker_admits_call_after_timeout :
  exists rs b w,
    execute_all adapter_breaker
      (repeat (0%Q, withRetry adapter_retry half (flaky 15)) 5)
      initial_breaker w0 = (rs, b, w)
    /\ forallb is_thrown rs = true
    /\ state b = OPEN
    /\ exists evs b' w',
         withDatabase adapter_retry adapter_breaker half (flaky 15) "probe"
           b (advance 60000 w)
         = (Returned "ok", evs, b', w')
         /\ invocations evs = 1.
Proof.
  eexists _, _, _. split; [vm_compute; reflexivity|].
  split; [reflexivity|]. split; [reflexivity|].
  eexists _, _, _. split; [vm_compute; reflexivity|].
  reflexivity.
Qed.

(** C5: while the breaker is OPEN, a call attempted before [resetTimeout]
    milliseconds have elapsed since it opened fails with the circuit-open
    error, and neither the wrapped operation nor the world is touched; a
    call attempted at or after [resetTimeout] moves the breaker to
    HALF_OPEN and runs the wrapped operation exactly once, reporting that
    one outcome as a trial. *)
Theorem open_breaker_waits_for_reset_timeout :
  forall (Store T : Type) (cfg : BreakerConfig)
         (act : action Store T js_thrown) (b : CircuitBreaker)
         (w : world Store),
    state b = OPEN ->
    ((clock w - lastTransition b < resetTimeout cfg)%Q ->
     execute cfg act b w = (Thrown CircuitOpenError, [], b, w))
    /\ ((resetTimeout cfg <= clock w - lastTransition b)%Q ->
        state (enter_half_open b) = HALF_OPEN
        /\ (forall r evs w',
               act w = (r, evs, w') ->
               execute cfg act b w
               = (propagate r, evs,
                  record_half_open cfg r (clock w') (enter_half_open b), w'))
        /\ (forall op : operation Store T,
               let '(_, evs, _, _) := execute cfg (call_once op) b w in
               invocations evs = 1)).
Proof.
  intros Store T cfg act b w Hopen; split.
  - intros Hearly. apply execute_open_early; assumption.
  - intros Hlate. split; [reflexivity|]. split.
    + intros r evs w' Hact.
      rewrite (execute_open_late cfg act b w Hopen Hlate).
      unfold run_and_record. rewrite Hact. reflexivity.
    + intros op.
      rewrite (execute_open_late cfg (call_once op) b w Hopen Hlate).
      unfold run_and_record, call_once.
      destruct (op (dep w)) as [[v|e] d]; reflexivity.
Qed.

Lemma open_breaker_waits_for_reset_timeout_witness :
  execute adapter_breaker (call_once (flaky 0))
    (snd (fst five_failures)) (advance 59999 (snd five_failures))
  = (Thrown CircuitOpenError, [], snd (fst five_failures),
     advance 59999 (snd five_failures)).
Proof.
  refine (proj1 (open_breaker_waits_for_reset_timeout nat string
                   adapter_breaker (call_once (flaky 0))
                   (snd (fst five_failures))
                   (advance 59999 (snd five_failures)) _) _).
  - reflexivity.
  - vm_compute; reflexivity.
Defined.

(** C6: from HALF_OPEN with no trial counted yet and a positive
    [halfOpenMaxAttempts], consecutive successful trial calls keep the
    breaker HALF_OPEN until their number reaches [halfOpenMaxAttempts], at
    which point the breaker is CLOSED with the failure count at zero; a
    single failed call while HALF_OPEN sets the breaker to OPEN at once and
    restarts the OPEN timer at the time of the failure. *)
Theorem half_open_closes_or_reopens :
  forall (Store T : Type) (cfg : BreakerConfig),
    1 <= halfOpenMaxAttempts cfg ->
    (forall (calls : list (Q * action Store T js_thrown)) b
            (w w' : world Store) rs b',
        state b = HALF_OPEN ->
        trialSuccesses b = 0 ->
        List.length calls <= halfOpenMaxAttempts cfg ->
        execute_all cfg calls b w = (rs, b', w') ->
        forallb is_returned rs = true ->
        (List.length calls < halfOpenMaxAttempts cfg -> state b' = HALF_OPEN)
        /\ (List.length calls = halfOpenMaxAttempts cfg ->
            state b' = CLOSED /\ failureCount b' = 0))
    /\ (forall (act : action Store T js_thrown) b (w w' : world Store) e evs,
           state b = HALF_OPEN ->
           act w = (Thrown e, evs, w') ->
           exists b',
             execute cfg act b w = (Thrown (JsThrown e), evs, b', w')
             /\ state b' = OPEN
             /\ lastTransition b' = clock w').
Proof.
  intros Store T cfg HN; split.
  - intros calls b w w' rs b' Hst Htrials Hlen Hrun Hall.
    destruct (half_open_successes cfg calls b w rs b' w' Hst
                ltac:(rewrite Htrials; exact Hlen) Hrun Hall) as [Hlt Heq].
    rewrite Htrials in Hlt, Heq. simpl in Hlt, Heq.
    split; [exact Hlt|].
    intros Hn. apply Heq; [lia | exact Hn].
  - intros act b w w' e evs Hst Hact.
    rewrite (execute_half_open cfg act b w Hst).
    unfold run_and_record. rewrite Hact. simpl.
    eexists; split; [reflexivity|]. split; reflexivity.
Qed.

Lemma half_open_closes_or_reopens_witness :
  (state (snd (fst three_trials)) = CLOSED
   /\ failureCount (snd (fst three_trials)) = 0)
  /\ exists b',
       execute adapter_breaker (call_once (flaky 9))
         (enter_half_open (snd (fst five_failures)))
         (advance 60000 (snd five_failures))
       = (Thrown (JsThrown boom), [EvInvoke (Some boom)], b',
          set_dep 6 (advance 60000 (snd five_failures)))
       /\ state b' = OPEN
       /\ lastTransition b'
          = clock (set_dep 6 (advance 60000 (snd five_failures))).
Proof.
  split.
  - refine (proj2 (proj1 (half_open_closes_or_reopens nat string
                            adapter_breaker _)
                     (repeat (0%Q, call_once (flaky 0)) 3)
                     (enter_half_open (snd (fst five_failures)))
                     (advance 60000 (snd five_failures))
                     (snd three_trials) (fst (fst three_trials))
                     (snd (fst three_trials)) _ _ _ _ _) _).
    + simpl; lia.
    + reflexivity.
    + reflexivity.
    + simpl; lia.
    + reflexivity.
    + reflexivity.
    + reflexivity.
  - refine (proj2 (half_open_closes_or_reopens nat string adapter_breaker _)
              (call_once (flaky 9))
              (enter_half_open (snd (fst five_failures)))
              (advance 60000 (snd five_failures))
              (set_dep 6 (advance 60000 (snd five_failures)))
              boom [EvInvoke (Some boom)] _ _).
    + simpl; lia.
    + reflexivity.
    + reflexivity.
Defined.

(** ** Claims about the composed executor *)

(** C3: [withDatabase] is the breaker's [execute] wrapped around the whole
    retry loop.  An OPEN breaker within its reset timeout rejects the call
    before the loop is entered (no event, world untouched); otherwise the
    loop runs in full and the breaker records once, from the loop's final
    outcome alone: an exhausted loop of [maxRetries] rejected attempts
    counts as one failure, and rejected attempts followed by a resolved one
    count as a success. *)
Theorem withDatabase_breaker_around_retry :
  forall (Store T : Type) (rcfg : RetryConfig) (bcfg : BreakerConfig)
         (random : nat -> Q) (op : operation Store T) (context : string)
         (b : CircuitBreaker) (w : world Store),
    withDatabase rcfg bcfg random op context b w
    = execute bcfg (withRetry rcfg random op) b w
    /\ (state b = OPEN ->
        (clock w - lastTransition b < resetTimeout bcfg)%Q ->
        withDatabase rcfg bcfg random op context b w
        = (Thrown CircuitOpenError, [], b, w))
    /\ (forall r evs w',
           withRetry rcfg random op w = (r, evs, w') ->
           (state b = CLOSED ->
            withDatabase rcfg bcfg random op context b w
            = (propagate r, evs, record_closed bcfg r (clock w') b, w'))
           /\ (state b = HALF_OPEN ->
               withDatabase rcfg bcfg random op context b w
               = (propagate r, evs, record_half_open bcfg r (clock w') b, w'))
           /\ (state b = OPEN ->
               (resetTimeout bcfg <= clock w - lastTransition b)%Q ->
               withDatabase rcfg bcfg random op context b w
               = (propagate r, evs,
                  record_half_open bcfg r (clock w') (enter_half_open b),
                  w')))
    /\ (forall e d',
           state b = CLOSED ->
           1 <= maxRetries rcfg ->
           reject_run op (maxRetries rcfg) (dep w)
             (ErrorInstance (new_Error "Unknown error")) = Some (e, d') ->
           exists evs b' w',
             withDatabase rcfg bcfg random op context b w
             = (Thrown (JsThrown (ErrorInstance (as_Error e))), evs, b', w')
             /\ invocations evs = maxRetries rcfg
             /\ failureCount b' = S (failureCount b))
    /\ (forall k last e d1 v d2,
           state b = CLOSED ->
           1 <= k <= maxRetries rcfg ->
           reject_run op (k - 1) (dep w) last = Some (e, d1) ->
           op d1 = (inl v, d2) ->
           exists evs b' w',
             withDatabase rcfg bcfg random op context b w
             = (Returned v, evs, b', w')
             /\ invocations evs = k
             /\ state b' = CLOSED
             /\ failureCount b' = 0).
Proof.
  intros Store T rcfg bcfg random op context b w.
  unfold withDatabase, withCircuitBreaker.
  split; [reflexivity|]. split; [apply execute_open_early|]. split.
  - intros r evs w' Hrun. repeat split.
    + intros Hst. rewrite (execute_closed bcfg _ b w Hst).
      unfold run_and_record. now rewrite Hrun.
    + intros Hst. rewrite (execute_half_open bcfg _ b w Hst).
      unfold run_and_record. now rewrite Hrun.
    + intros Hst Hlate. rewrite (execute_open_late bcfg _ b w Hst Hlate).
      unfold run_and_record. now rewrite Hrun.
  - split.
    + intros e d' Hst Hpos Hrej.
      destruct (withRetry_exhausted_run rcfg random op w e d'
                  Hpos Hrej) as (evs & w' & Hrun & Hinv & _).
      rewrite (execute_closed bcfg _ b w Hst).
      unfold run_and_record. rewrite Hrun.
      eexists _, _, _. split; [reflexivity|]. split; [exact Hinv|].
      simpl. destruct (failureThreshold bcfg <=? S (failureCount b));
        reflexivity.
    + intros k last e d1 v d2 Hst Hk Hrej Hop.
      destruct (withRetry_returns_at_first_success rcfg random op w k last e
                  d1 v d2 Hk Hrej Hop) as (evs & w' & Hrun & _ & Hinv & _).
      rewrite (execute_closed bcfg _ b w Hst).
      unfold run_and_record. rewrite Hrun.
      eexists _, _, _. split; [reflexivity|]. repeat split. exact Hinv.
Qed.

Lemma withDatabase_breaker_around_retry_witness :
  withDatabase adapter_retry adapter_breaker half (flaky 9) "query"
    (snd (fst five_failures)) (advance 1000 (snd five_failures))
  = (Thrown CircuitOpenError, [], snd (fst five_failures),
     advance 1000 (snd five_failures)).
Proof.
  refine (proj1 (proj2 (withDatabase_breaker_around_retry nat string
                          adapter_retry adapter_breaker half (flaky 9)
                          "query" (snd (fst five_failures))
                          (advance 1000 (snd five_failures)))) _ _).
  - reflexivity.
  - vm_compute; reflexivity.
Defined.

(** What [execute] can produce: the circuit-open rejection, or the wrapped
    operation's own outcome after a single run. *)
Lemma execute_outcome
    {Store T : Type} (cfg : BreakerConfig) (act : action Store T js_thrown)
    (b b' : CircuitBreaker) (w w' : world Store) r' evs :
  execute cfg act b w = (r', evs, b', w') ->
  (r' = Thrown CircuitOpenError /\ evs = [] /\ b' = b /\ w' = w
   /\ state b = OPEN)
  \/ (exists r, act w = (r, evs, w') /\ r' = propagate r).
Proof.
  unfold execute, run_and_record.
  destruct (state b) eqn:Hst.
  - destruct (act w) as [[r evs1] w1].
    intros H; injection H as <- <- <- <-. right; eauto.
  - destruct (Qlt_le_dec _ _).
    + intros H; injection H as <- <- <- <-. left; repeat split.
    + destruct (act w) as [[r evs1] w1].
      intros H; injection H as <- <- <- <-. right; eauto.
  - destruct (act w) as [[r evs1] w1].
    intros H; injection H as <- <- <- <-. right; eauto.
Qed.

(** C7: an attempt that resolves ends [withRetry] at once with that value,
    whatever its index within the budget; in particular an operation that
    resolves when first invoked is invoked exactly once by the composed
    executor, with no suspension and no log entry, and a CLOSED breaker
    with failure count zero is left as it was. *)
Theorem withRetry_returns_immediately_on_success :
  forall (Store T : Type) (rcfg : RetryConfig) (bcfg : BreakerConfig)
         (random : nat -> Q) (op : operation Store T),
    (forall (w : world Store) k last e d1 v d2,
        1 <= k <= maxRetries rcfg ->
        reject_run op (k - 1) (dep w) last = Some (e, d1) ->
        op d1 = (inl v, d2) ->
        exists evs w',
          withRetry rcfg random op w = (Returned v, evs, w')
          /\ dep w' = d2
          /\ invocations evs = k
          /\ List.last evs (EvSleep 0) = EvInvoke None)
    /\ (forall context b (w : world Store) v d,
           1 <= maxRetries rcfg ->
           state b = CLOSED ->
           failureCount b = 0 ->
           op (dep w) = (inl v, d) ->
           withDatabase rcfg bcfg random op context b w
           = (Returned v, [EvInvoke None], b, set_dep d w)).
Proof.
  intros Store T rcfg bcfg random op; split.
  - intros w k last e d1 v d2 Hk Hrej Hop.
    destruct (withRetry_returns_at_first_success rcfg random op w k last e
                d1 v d2 Hk Hrej Hop) as (evs & w' & Hrun & Hdep & Hinv & _ & Hl).
    exists evs, w'. repeat split; assumption.
  - intros context b w v d Hpos Hst Hcount Hop.
    unfold withDatabase, withCircuitBreaker.
    rewrite (execute_closed bcfg _ b w Hst).
    unfold run_and_record, withRetry.
    destruct (maxRetries rcfg) as [|n]; [lia|].
    rewrite (retry_loop_resolved rcfg random op _ _ _ _ _ _ Hop).
    simpl. destruct b as [st fc lt ts]; simpl in *; subst. reflexivity.
Qed.

Lemma withRetry_returns_immediately_on_success_witness :
  withDatabase adapter_retry adapter_breaker half (flaky 0) "query"
    initial_breaker w0
  = (Returned "ok", [EvInvoke None], initial_breaker, set_dep 1 w0).
Proof.
  refine (proj2 (withRetry_returns_immediately_on_success nat string
                   adapter_retry adapter_breaker half (flaky 0))
            "query" initial_breaker w0 "ok" 1 _ _ _ _).
  - simpl; lia.
  - reflexivity.
  - reflexivity.
  - reflexivity.
Defined.

(** A value returned through the executor is one the operation resolved
    with. *)
Lemma withDatabase_returned
    {Store T : Type} (rcfg : RetryConfig) (bcfg : BreakerConfig)
    (random : nat -> Q) (op : operation Store T) context b w v evs b' w' :
  withDatabase rcfg bcfg random op context b w = (Returned v, evs, b', w') ->
  exists d,
    op d = (inl v, dep w') /\ List.last evs (EvSleep 0) = EvInvoke None.
Proof.
  unfold withDatabase, withCircuitBreaker. intros Hrun.
  destruct (execute_outcome _ _ _ _ _ _ _ _ Hrun)
    as [(Hr & _)|(r & Hact & Hr)]; [discriminate|].
  destruct r as [v0|e]; [|discriminate].
  injection Hr as ->.
  exact (retry_loop_returned rcfg random op _ _ _ _ _ _ _ Hact).
Qed.

(** C8: a call through the executor with a positive retry budget ends in
    one of three ways and no other.  It returns a value, which the
    operation resolved with in its last invocation; or it throws the
    circuit-open error, the breaker being OPEN and nothing having run; or it
    throws the error of the operation's last invocation, after all
    [maxRetries] attempts were made.  No failure is turned into a value. *)
Theorem withDatabase_never_swallows_failure :
  forall (Store T : Type) (rcfg : RetryConfig) (bcfg : BreakerConfig)
         (random : nat -> Q) (op : operation Store T) (context : string)
         (b b' : CircuitBreaker) (w w' : world Store) r evs,
    1 <= maxRetries rcfg ->
    withDatabase rcfg bcfg random op context b w = (r, evs, b', w') ->
    match r with
    | Returned v =>
      (exists d, op d = (inl v, dep w'))
      /\ List.last evs (EvSleep 0) = EvInvoke None
    | Thrown CircuitOpenError =>
      state b = OPEN /\ evs = [] /\ b' = b /\ w' = w
    | Thrown (JsThrown t) =>
      exists error d,
        op d = (inr error, dep w')
        /\ t = ErrorInstance (as_Error error)
        /\ invocations evs = maxRetries rcfg
        /\ List.last evs (EvSleep 0)
           = EvError (error_text error) (maxRetries rcfg)
    end.
Proof.
  intros Store T rcfg bcfg random op context b b' w w' r evs Hpos Hrun.
  destruct r as [v|[|t]].
  - destruct (withDatabase_returned _ _ _ _ _ _ _ _ _ _ _ Hrun) as (d & Hd & Hl).
    split; [exists d; exact Hd | exact Hl].
  - unfold withDatabase, withCircuitBreaker in Hrun.
    destruct (execute_outcome _ _ _ _ _ _ _ _ Hrun)
      as [(_ & Hevs & Hb & Hw & Hst)|(r & _ & Hr)].
    + repeat split; assumption.
    + destruct r; discriminate.
  - unfold withDatabase, withCircuitBreaker in Hrun.
    destruct (execute_outcome _ _ _ _ _ _ _ _ Hrun)
      as [(Hr & _)|(r & Hact & Hr)]; [discriminate|].
    destruct r as [v0|e]; [discriminate|].
    injection Hr as ->.
    unfold withRetry in Hact.
    assert (Hsum : maxRetries rcfg + 1 = S (maxRetries rcfg)) by lia.
    destruct (retry_loop_thrown rcfg random op _ _ _ _ _ _ _ Hpos Hsum Hact)
      as (error & d & Hd & Ht & Hinv & Hl).
    exists error, d. repeat split; assumption.
Qed.

Lemma withDatabase_never_swallows_failure_witness :
  exists error d,
    flaky 3 d = (inr error, dep (snd exhausted_call))
    /\ boom = ErrorInstance (as_Error error)
    /\ invocations (snd (fst (fst exhausted_call))) = 3
    /\ List.last (snd (fst (fst exhausted_call))) (EvSleep 0)
       = EvError (error_text error) 3.
Proof.
  refine (withDatabase_never_swallows_failure nat string adapter_retry
            adapter_breaker half (flaky 3) "query" initial_breaker
            (snd (fst exhausted_call)) w0 (snd exhausted_call)
            (Thrown (JsThrown boom)) (snd (fst (fst exhausted_call))) _ _).
  - simpl; lia.
  - reflexivity.
Defined.

(** ** Claims about the data-access methods *)

Section MemoriesFacts.

Context {Store Json Fields : Type}.
Variable JSON_parse : string -> Json + JsError.
Variable find_memories :
  memories_query -> option Q
  -> operation Store (list (@memory_row Json Fields)).

(** Parsing the contents keeps the number of records. *)
Lemma parse_rows_length (rows : list (@memory_row Json Fields)) :
  forall ms, parse_rows JSON_parse rows = inl ms ->
             List.length ms = List.length rows.
Proof.
  induction rows as [|row rest IH]; intros ms; simpl.
  - intros H; injection H as <-. reflexivity.
  - destruct (parse_row JSON_parse row) as [m|e]; [|discriminate].
    destruct (parse_rows JSON_parse rest) as [ms'|e]; [|discriminate].
    intros H; injection H as <-. simpl. f_equal. apply IH. reflexivity.
Qed.

(** What the operation of [getMemories] resolves with is the parsed
    answer to one request issued with the limited count. *)
Lemma getMemories_operation_resolved params d ms d' :
  getMemories_operation JSON_parse find_memories params d = (inl ms, d') ->
  exists rows,
    find_memories (build_query params) (limited_count (count params)) d
    = (inl rows, d')
    /\ parse_rows JSON_parse rows = inl ms
    /\ List.length ms = List.length rows.
Proof.
  unfold getMemories_operation.
  destruct (find_memories _ _ d) as [[rows|error] d1]; [|discriminate].
  destruct (parse_rows JSON_parse rows) as [ms'|e] eqn:Hparse; [|discriminate].
  intros H; injection H as <- <-.
  exists rows. split; [reflexivity|]. split; [exact Hparse|].
  exact (parse_rows_length _ _ Hparse).
Qed.

End MemoriesFacts.

(** Limiting a count that was already limited changes nothing, so every
    attempt of one call passes the same limit. *)
Lemma limited_count_idempotent (count : option Q) :
  limited_count (limited_count count) = limited_count count.
Proof.
  destruct count as [c|]; [|reflexivity].
  unfold limited_count.
  destruct (Qlt_le_dec 20 c) as [Hbig|Hsmall] eqn:Hcmp.
  - reflexivity.
  - rewrite Hcmp. reflexivity.
Qed.

(** An omitted count is handed to [limit] as it is. *)
Lemma limited_count_undefined : limited_count None = None.
Proof. reflexivity. Qed.

(** The sample collection honours a positive limit. *)
Lemma sample_find_respects_limit :
  forall query (n : Q) d rows d',
    (0 < n)%Q ->
    sample_find query (Some n) d = (inl rows, d') ->
    (inject_Z (Z.of_nat (List.length rows)) <= n)%Q.
Proof.
  intros query n d rows d' Hn H. unfold sample_find in H.
  injection H as <- _.
  apply Qle_trans with (inject_Z (Qfloor n)); [|apply Qfloor_le].
  rewrite <- Zle_Qle.
  assert (H0 : (0 <= Qfloor n)%Z).
  { change 0%Z with (Qfloor 0). apply Qfloor_resp_le, Qlt_le_weak, Hn. }
  pose proof (firstn_le_length (Z.to_nat (Qfloor n)) sample_rows). lia.
Qed.

(** C9 (as amended): the memories [getMemories] returns are the parsed
    answer to one request, and the limit that request carries is 20 when
    more than 20 memories are asked for, the requested count itself when
    it is at most 20, and [undefined] when no count is given.  So when the
    remote request honours a positive [limit], a call that asks for a
    positive count returns at most 20 memories and no more than it asked
    for; with no count the adapter sets no bound of its own. *)
Theorem getMemories_caps_requested_count :
  forall (Store Json Fields : Type) (rcfg : RetryConfig)
         (bcfg : BreakerConfig) (random : nat -> Q)
         (JSON_parse : string -> Json + JsError)
         (find_memories :
            memories_query -> option Q
            -> operation Store (list (@memory_row Json Fields)))
         (params : GetMemoriesParams) b (w w' : world Store) ms evs b',
    getMemories rcfg bcfg random JSON_parse find_memories params b w
    = (Returned ms, evs, b', w') ->
    let answered_with limit :=
      exists d rows,
        find_memories (build_query params) limit d = (inl rows, dep w')
        /\ parse_rows JSON_parse rows = inl ms
        /\ List.length ms = List.length rows in
    (forall c, count params = Some c -> (20 < c)%Q ->
               answered_with (Some 20%Q))
    /\ (forall c, count params = Some c -> (c <= 20)%Q ->
                  answered_with (Some c))
    /\ (count params = None -> answered_with None)
    /\ ((forall query (n : Q) d rows d',
            (0 < n)%Q ->
            find_memories query (Some n) d = (inl rows, d') ->
            (inject_Z (Z.of_nat (List.length rows)) <= n)%Q) ->
        forall c, count params = Some c -> (0 < c)%Q ->
                  List.length ms <= 20
                  /\ (inject_Z (Z.of_nat (List.length ms)) <= c)%Q).
Proof.
  intros Store Json Fields rcfg bcfg random JSON_parse find_memories
    params b w w' ms evs b' Hrun.
  unfold getMemories in Hrun.
  destruct (negb (truthy_string (tableName params))); [discriminate|].
  destruct (negb (truthy_string (roomId params))); [discriminate|].
  destruct (withDatabase_returned _ _ _ _ _ _ _ _ _ _ _ Hrun) as (d & Hop & _).
  destruct (getMemories_operation_resolved _ _ _ _ _ _ Hop)
    as (rows & Hfind & Hparse & Hlen).
  cbv zeta.
  assert (Hbig : forall c, count params = Some c -> (20 < c)%Q ->
            find_memories (build_query params) (Some 20%Q) d
            = (inl rows, dep w')).
  { intros c Hc H20. rewrite Hc in Hfind. unfold limited_count in Hfind.
    destruct (Qlt_le_dec 20 c) as [_|Hsmall]; [exact Hfind|].
    exfalso; exact (Qlt_not_le _ _ H20 Hsmall). }
  assert (Hsmall : forall c, count params = Some c -> (c <= 20)%Q ->
            find_memories (build_query params) (Some c) d
            = (inl rows, dep w')).
  { intros c Hc H20. rewrite Hc in Hfind. unfold limited_count in Hfind.
    destruct (Qlt_le_dec 20 c) as [Hgt|_]; [|exact Hfind].
    exfalso; exact (Qlt_not_le _ _ Hgt H20). }
  split; [|split; [|split]].
  - intros c Hc H20. exists d, rows.
    split; [exact (Hbig c Hc H20)|]. split; assumption.
  - intros c Hc H20. exists d, rows.
    split; [exact (Hsmall c Hc H20)|]. split; assumption.
  - intros Hc. rewrite Hc in Hfind. exists d, rows.
    split; [exact Hfind|]. split; assumption.
  - intros Hlimit c Hc Hpos. rewrite Hlen.
    destruct (Qlt_le_dec 20 c) as [H20|H20].
    + assert (Htwenty : (0 < 20)%Q) by reflexivity.
      pose proof (Hlimit _ _ _ _ _ Htwenty (Hbig c Hc H20)) as Hrows.
      split.
      * change 20%Q with (inject_Z 20) in Hrows.
        rewrite <- Zle_Qle in Hrows. lia.
      * apply Qle_trans with (1 := Hrows). apply Qlt_le_weak, H20.
    + pose proof (Hlimit _ _ _ _ _ Hpos (Hsmall c Hc H20)) as Hrows.
      split; [|exact Hrows].
      assert (Hr20 : (inject_Z (Z.of_nat (List.length rows))
                      <= inject_Z 20)%Q)
        by (apply Qle_trans with c; assumption).
      rewrite <- Zle_Qle in Hr20. lia.
Qed.

Lemma getMemories_caps_requested_count_witness :
  (exists d rows,
      sample_find (build_query sample_params) (Some 20%Q) d
      = (inl rows, dep (snd capped_call))
      /\ parse_rows sample_parse rows = inl (firstn 20 sample_memories)
      /\ List.length (firstn 20 sample_memories) = List.length rows)
  /\ List.length (firstn 20 sample_memories) <= 20
  /\ (inject_Z (Z.of_nat (List.length (firstn 20 sample_memories))) <= 50)%Q.
Proof.
  pose proof (getMemories_caps_requested_count nat string unit adapter_retry
                adapter_breaker half sample_parse sample_find sample_params
                initial_breaker w0 (snd capped_call)
                (firstn 20 sample_memories) (snd (fst (fst capped_call)))
                (snd (fst capped_call)) ltac:(reflexivity))
    as (Hbig & _ & _ & Hbound).
  split.
  - apply (Hbig 50%Q); reflexivity.
  - apply (Hbound sample_find_respects_limit 50%Q); reflexivity.
Defined.

(** C9 (as stated) fails when no count is given: [undefined > 20] is
    false, the request carries no limit, and a collection that honours
    every positive limit answers with all its thirty memories. *)
Lemma getMemories_without_count_is_not_capped :
  (forall query (n : Q) d rows d',
      (0 < n)%Q ->
      sample_find query (Some n) d = (inl rows, d') ->
      (inject_Z (Z.of_nat (List.length rows)) <= n)%Q)
  /\ exists ms evs b' w',
       getMemories adapter_retry adapter_breaker half sample_parse
         sample_find sample_params_no_count initial_breaker w0
       = (Returned ms, evs, b', w')
       /\ List.length ms = 30
       /\ ~ List.length ms <= 20.
Proof.
  split; [exact sample_find_respects_limit|].
  eexists _, _, _, _. split; [reflexivity|].
  split; [reflexivity|]. simpl. lia.
Qed.

(** C10: [getCachedEmbeddings] resolves with the empty list on every
    input; it produces no event (no invocation of a remote operation, no
    retry, no log entry) and leaves the circuit breaker and the world as
    they were. *)
Theorem getCachedEmbeddings_returns_empty :
  forall (Store : Type) (opts : CachedEmbeddingsOpts) (b : CircuitBreaker)
         (w : world Store),
    getCachedEmbeddings opts b w = (Returned [], [], b, w).
Proof. intros Store opts b w. reflexivity. Qed.

(** * Further properties of the source *)

(** ** The retry loop on any operation *)

Section RetryBudget.

Context {Store T : Type}.
Variable cfg : RetryConfig.
Variable random : nat -> Q.
Variable op : operation Store T.

(** What every run of the loop satisfies, whatever the operation does. *)
Lemma retry_loop_budget iterations :
  forall attempt last w r evs w',
    1 <= iterations ->
    iterations + attempt = S (maxRetries cfg) ->
    retry_loop cfg random op iterations attempt last w = (r, evs, w') ->
    1 <= invocations evs <= iterations
    /\ S (List.length (delays evs)) = invocations evs
    /\ draws w' = draws w + List.length (delays evs)
    /\ delays evs
       = map (fun i =>
                js_add (backoffDelay cfg (attempt + i))
                  (js_mul (random (draws w + i)%nat) (jitterMax cfg)))
             (seq 0 (List.length (delays evs)))
    /\ (is_thrown r = true -> invocations evs = iterations).
Proof.
  induction iterations as [|rest IH]; intros attempt last w r evs w' Hpos Hsum;
    [lia|]; simpl.
  destruct (op (dep w)) as [[v|error] d] eqn:Hop.
  - intros H; injection H as <- <- <-.
    unfold invocations; simpl.
    repeat split; try lia; try discriminate.
  - destruct (Nat.ltb_spec attempt (maxRetries cfg)) as [Hlt|Hge].
    + destruct (retry_loop cfg random op rest (S attempt) error _)
        as [[r1 evs1] w1] eqn:Hrec.
      intros H; injection H as <- <- <-.
      assert (Hrest : 1 <= rest) by lia.
      assert (Hsum' : rest + S attempt = S (maxRetries cfg)) by lia.
      destruct (IH _ _ _ _ _ _ Hrest Hsum' Hrec)
        as (Hinv & Hlen & Hdraws & Hdel & Hthrown).
      simpl draws in *.
      rewrite invocations_cons_invoke.
      rewrite !invocations_cons_other by reflexivity.
      simpl delays. simpl List.length.
      repeat split; try lia.
      * simpl. rewrite !Nat.add_0_r. f_equal.
        rewrite Hdel at 1. rewrite <- seq_shift, map_map.
        apply map_ext. intros i.
        replace (S attempt + i) with (attempt + S i) by lia.
        replace (S (draws w) + i) with (draws w + S i) by lia.
        reflexivity.
      * intros Hr. rewrite (Hthrown Hr). reflexivity.
    + intros H; injection H as <- <- <-.
      unfold invocations; simpl.
      repeat split; try lia.
Qed.

End RetryBudget.

(** X1: whatever the operation does, one call of [withRetry] with a
    positive budget invokes it at least once and at most [maxRetries]
    times, suspends exactly once between two consecutive invocations and
    never after the last, draws one random number per suspension, and
    throws only after all [maxRetries] invocations. *)
Theorem withRetry_attempt_budget :
  forall (Store T : Type) (cfg : RetryConfig) (random : nat -> Q)
         (op : operation Store T) (w w' : world Store) r evs,
    1 <= maxRetries cfg ->
    withRetry cfg random op w = (r, evs, w') ->
    1 <= invocations evs <= maxRetries cfg
    /\ S (List.length (delays evs)) = invocations evs
    /\ draws w' = draws w + List.length (delays evs)
    /\ (is_thrown r = true -> invocations evs = maxRetries cfg).
Proof.
  intros Store T cfg random op w w' r evs Hpos Hrun.
  unfold withRetry in Hrun.
  assert (Hsum : maxRetries cfg + 1 = S (maxRetries cfg)) by lia.
  destruct (retry_loop_budget cfg random op _ _ _ _ _ _ _ Hpos Hsum Hrun)
    as (Hinv & Hlen & Hdraws & _ & Hthrown).
  repeat split; try assumption; lia.
Qed.

Lemma withRetry_attempt_budget_witness :
  1 <= invocations (snd (fst (withRetry adapter_retry half (flaky 1) w0))) <= 3
  /\ S (List.length
          (delays (snd (fst (withRetry adapter_retry half (flaky 1) w0)))))
     = invocations (snd (fst (withRetry adapter_retry half (flaky 1) w0)))
  /\ draws (snd (withRetry adapter_retry half (flaky 1) w0))
     = draws w0
       + List.length
           (delays (snd (fst (withRetry adapter_retry half (flaky 1) w0))))
  /\ (is_thrown (fst (fst (withRetry adapter_retry half (flaky 1) w0))) = true
      -> invocations (snd (fst (withRetry adapter_retry half (flaky 1) w0)))
         = 3).
Proof.
  refine (withRetry_attempt_budget nat string adapter_retry half (flaky 1) w0
            (snd (withRetry adapter_retry half (flaky 1) w0))
            (fst (fst (withRetry adapter_retry half (flaky 1) w0)))
            (snd (fst (withRetry adapter_retry half (flaky 1) w0))) _ _).
  - simpl; lia.
  - reflexivity.
Defined.

(** A suspension lies between the backoff and the backoff plus
    [jitterMax], both rounded. *)
Lemma delay_range (cfg : RetryConfig) (attempt : nat) (r : Q) :
  (0 <= jitterMax cfg)%Q -> (0 <= r)%Q -> (r <= 1)%Q ->
  (binary64 (backoffDelay cfg attempt)
   <= js_add (backoffDelay cfg attempt) (js_mul r (jitterMax cfg)))%Q
  /\ (js_add (backoffDelay cfg attempt) (js_mul r (jitterMax cfg))
      <= binary64 (backoffDelay cfg attempt + binary64 (jitterMax cfg)))%Q.
Proof.
  intros Hj H0 H1.
  assert (Hlo : (0 <= r * jitterMax cfg)%Q)
    by (apply Qmult_le_0_compat; assumption).
  assert (Hhi : (r * jitterMax cfg <= jitterMax cfg)%Q).
  { setoid_replace (jitterMax cfg) with (1 * jitterMax cfg)%Q at 2 by ring.
    apply Qmult_le_compat_r; assumption. }
  destruct (js_mul_range _ _ _ Hlo Hhi) as [Hjlo Hjhi].
  destruct (js_add_range (backoffDelay cfg attempt) _ _ _ Hjlo Hjhi)
    as [Hdlo Hdhi].
  split; [|exact Hdhi].
  apply Qle_trans with (2 := Hdlo).
  apply binary64_monotone. rewrite Qplus_0_r. apply Qle_refl.
Qed.

(** The backoff never exceeds the cap, so no suspension exceeds the
    rounded sum of the cap and [jitterMax]. *)
Lemma delay_below_cap (cfg : RetryConfig) (attempt : nat) (r : Q) :
  (0 <= jitterMax cfg)%Q -> (0 <= r)%Q -> (r <= 1)%Q ->
  (js_add (backoffDelay cfg attempt) (js_mul r (jitterMax cfg))
   <= binary64 (maxDelay cfg + binary64 (jitterMax cfg)))%Q.
Proof.
  intros Hj H0 H1.
  destruct (delay_range cfg attempt r Hj H0 H1) as [_ Hhi].
  apply Qle_trans with (1 := Hhi).
  apply binary64_monotone.
  apply Qplus_le_compat; [apply Q.le_min_r | apply Qle_refl].
Qed.

Lemma total_of_bounded (f : nat -> Q) (bound : Q) (n start : nat) :
  (forall i, f i <= bound)%Q ->
  (fold_right Qplus 0 (map f (seq start n)) <= inject_Z (Z.of_nat n) * bound)%Q.
Proof.
  intros Hf. revert start. induction n as [|n IH]; intros start.
  - simpl. rewrite Qmult_0_l. apply Qle_refl.
  - cbn [seq map fold_right].
    rewrite Nat2Z.inj_succ. unfold Z.succ. rewrite inject_Z_plus.
    setoid_replace ((inject_Z (Z.of_nat n) + inject_Z 1) * bound)%Q
      with (bound + inject_Z (Z.of_nat n) * bound)%Q by ring.
    apply Qplus_le_compat; [apply Hf | apply IH].
Qed.

(** X2: with the random source in [0, 1) and non-negative [maxDelay] and
    [jitterMax], no suspension of [withRetry] is longer than the double
    nearest to [maxDelay + jitterMax] (with [jitterMax] itself rounded), and
    the suspensions of one call add up to at most [maxRetries - 1] times
    that, whatever the operation does. *)
Theorem withRetry_total_delay_bounded :
  forall (Store T : Type) (cfg : RetryConfig) (random : nat -> Q)
         (op : operation Store T) (w w' : world Store) r evs,
    (forall i, 0 <= random i /\ random i < 1)%Q ->
    (0 <= jitterMax cfg)%Q ->
    (0 <= maxDelay cfg)%Q ->
    1 <= maxRetries cfg ->
    withRetry cfg random op w = (r, evs, w') ->
    Forall (fun delay =>
              (delay <= binary64 (maxDelay cfg + binary64 (jitterMax cfg)))%Q)
           (delays evs)
    /\ (total_delay evs
        <= inject_Z (Z.of_nat (maxRetries cfg - 1))
           * binary64 (maxDelay cfg + binary64 (jitterMax cfg)))%Q.
Proof.
  intros Store T cfg random op w w' r evs Hrand Hj Hmax Hpos Hrun.
  unfold withRetry in Hrun.
  assert (Hsum : maxRetries cfg + 1 = S (maxRetries cfg)) by lia.
  destruct (retry_loop_budget cfg random op _ _ _ _ _ _ _ Hpos Hsum Hrun)
    as (Hinv & Hlen & _ & Hdel & _).
  assert (Hbound : forall i,
             (js_add (backoffDelay cfg (1 + i))
                (js_mul (random (draws w + i)%nat) (jitterMax cfg))
              <= binary64 (maxDelay cfg + binary64 (jitterMax cfg)))%Q).
  { intros i. destruct (Hrand (draws w + i)) as [H0 H1].
    apply delay_below_cap; [exact Hj | exact H0 | apply Qlt_le_weak, H1]. }
  split.
  - rewrite Hdel. apply Forall_forall. intros delay Hin.
    apply in_map_iff in Hin. destruct Hin as (i & <- & _). apply Hbound.
  - unfold total_delay. rewrite Hdel.
    apply Qle_trans
      with (inject_Z (Z.of_nat (List.length (delays evs)))
            * binary64 (maxDelay cfg + binary64 (jitterMax cfg)))%Q.
    + apply total_of_bounded. exact Hbound.
    + apply Qmult_le_compat_r.
      * rewrite <- Zle_Qle. lia.
      * rewrite <- binary64_zero. apply binary64_monotone.
        apply Qle_trans with (0 + 0)%Q; [apply Qle_refl|].
        apply Qplus_le_compat; [exact Hmax|].
        rewrite <- binary64_zero. apply binary64_monotone, Hj.
Qed.

Lemma withRetry_total_delay_bounded_witness :
  Forall (fun delay => (delay <= 11000)%Q)
         (delays (snd (fst (withRetry adapter_retry half (flaky 3) w0))))
  /\ (total_delay (snd (fst (withRetry adapter_retry half (flaky 3) w0)))
      <= inject_Z (Z.of_nat (3 - 1)) * 11000)%Q.
Proof.
  change 11000%Q with (binary64 (10000 + binary64 1000)).
  refine (withRetry_total_delay_bounded nat string adapter_retry half
            (flaky 3) w0 (snd (withRetry adapter_retry half (flaky 3) w0))
            (fst (fst (withRetry adapter_retry half (flaky 3) w0)))
            (snd (fst (withRetry adapter_retry half (flaky 3) w0)))
            _ _ _ _ _).
  - intros i; split; unfold half, Qle, Qlt; simpl; lia.
  - unfold Qle; simpl; lia.
  - unfold Qle; simpl; lia.
  - simpl; lia.
  - reflexivity.
Defined.

(** X3: with the adapter's own configuration, a call of [withRetry] is
    suspended for at most 5000 ms in all, whatever the operation does,
    and for at least 3000 ms before it gives up and throws; the sums that
    make the delays are rounded to doubles, so 5000 itself is possible. *)
Theorem adapter_withRetry_waits_at_most_5s :
  forall (Store T : Type) (random : nat -> Q) (op : operation Store T)
         (w w' : world Store) r evs,
    (forall i, 0 <= random i /\ random i < 1)%Q ->
    withRetry adapter_retry random op w = (r, evs, w') ->
    (0 <= total_delay evs)%Q
    /\ (total_delay evs <= 5000)%Q
    /\ (is_thrown r = true -> 3000 <= total_delay evs)%Q.
Proof.
  intros Store T random op w w' r evs Hrand Hrun.
  unfold withRetry in Hrun.
  assert (Hpos : 1 <= maxRetries adapter_retry) by (simpl; lia).
  assert (Hsum : maxRetries adapter_retry + 1 = S (maxRetries adapter_retry))
    by lia.
  destruct (retry_loop_budget adapter_retry random op _ _ _ _ _ _ _
              Hpos Hsum Hrun) as (Hinv & Hlen & _ & Hdel & Hthrown).
  change (maxRetries adapter_retry) with 3 in *.
  assert (Hj : (0 <= jitterMax adapter_retry)%Q) by discriminate.
  destruct (Hrand (draws w + 0)) as [Ha0 Ha1].
  destruct (Hrand (draws w + 1)) as [Hc0 Hc1].
  destruct (delay_range adapter_retry (1 + 0) _ Hj Ha0 (Qlt_le_weak _ _ Ha1))
    as [Hlo1 Hhi1].
  destruct (delay_range adapter_retry (1 + 1) _ Hj Hc0 (Qlt_le_weak _ _ Hc1))
    as [Hlo2 Hhi2].
  assert (H1000 : binary64 (backoffDelay adapter_retry (1 + 0)) = 1000%Q)
    by (vm_compute; reflexivity).
  assert (H2000 : binary64 (backoffDelay adapter_retry (1 + 0)
                            + binary64 (jitterMax adapter_retry)) = 2000%Q)
    by (vm_compute; reflexivity).
  assert (H2000' : binary64 (backoffDelay adapter_retry (1 + 1)) = 2000%Q)
    by (vm_compute; reflexivity).
  assert (H3000 : binary64 (backoffDelay adapter_retry (1 + 1)
                            + binary64 (jitterMax adapter_retry)) = 3000%Q)
    by (vm_compute; reflexivity).
  rewrite H1000 in Hlo1. rewrite H2000 in Hhi1.
  rewrite H2000' in Hlo2. rewrite H3000 in Hhi2.
  unfold total_delay. rewrite Hdel.
  destruct (List.length (delays evs)) as [|[|[|n]]] eqn:Hn; [| | |lia];
    cbn [seq map fold_right];
    (split; [lra | split; [lra | intros Hr; specialize (Hthrown Hr); try lia]]).
  lra.
Qed.

Lemma adapter_withRetry_waits_at_most_5s_witness :
  (0 <= total_delay (snd (fst (withRetry adapter_retry half (flaky 3) w0))))%Q
  /\ (total_delay (snd (fst (withRetry adapter_retry half (flaky 3) w0)))
      <= 5000)%Q
  /\ (is_thrown (fst (fst (withRetry adapter_retry half (flaky 3) w0))) = true
      -> 3000
         <= total_delay (snd (fst (withRetry adapter_retry half (flaky 3) w0))))%Q.
Proof.
  refine (adapter_withRetry_waits_at_most_5s nat string half (flaky 3) w0
            (snd (withRetry adapter_retry half (flaky 3) w0))
            (fst (fst (withRetry adapter_retry half (flaky 3) w0)))
            (snd (fst (withRetry adapter_retry half (flaky 3) w0))) _ _).
  - intros i; split; unfold half, Qle, Qlt; simpl; lia.
  - reflexivity.
Defined.

Lemma two_power_succ (n : nat) :
  (2 ^ Z.of_nat (S n) == 2 * 2 ^ Z.of_nat n)%Q.
Proof.
  rewrite Nat2Z.inj_succ. unfold Z.succ.
  rewrite Qpower_plus by discriminate.
  rewrite Qpower_1_r. ring.
Qed.

Lemma two_power_monotone (n m : nat) :
  n <= m -> (2 ^ Z.of_nat n <= 2 ^ Z.of_nat m)%Q.
Proof.
  intros H. apply Qpower_le_compat_l; [lia | discriminate].
Qed.

(** X4: with a non-negative [baseDelay], the backoff before the jitter
    never exceeds [maxDelay], never decreases from one attempt to the next,
    starts at [baseDelay] when that is within the cap, and doubles at each
    attempt for as long as the doubled value stays within the cap. *)
Theorem backoffDelay_doubles_up_to_cap :
  forall cfg : RetryConfig,
    (0 <= baseDelay cfg)%Q ->
    (forall k, backoffDelay cfg k <= maxDelay cfg)%Q
    /\ (forall k k', k <= k' -> (backoffDelay cfg k <= backoffDelay cfg k')%Q)
    /\ ((baseDelay cfg <= maxDelay cfg)%Q ->
        (backoffDelay cfg 1 == baseDelay cfg)%Q)
    /\ (forall k,
           1 <= k ->
           (baseDelay cfg * 2 ^ Z.of_nat k <= maxDelay cfg)%Q ->
           (backoffDelay cfg (S k) == 2 * backoffDelay cfg k)%Q).
Proof.
  intros cfg Hbase. unfold backoffDelay. repeat split.
  - intros k. apply Q.le_min_r.
  - intros k k' Hk. apply Q.min_le_compat_r.
    rewrite !(Qmult_comm (baseDelay cfg)).
    apply Qmult_le_compat_r; [|exact Hbase].
    apply two_power_monotone. lia.
  - intros Hcap. simpl. rewrite Q.min_l.
    + change (2 ^ 0)%Q with 1%Q. ring.
    + change (2 ^ 0)%Q with 1%Q. rewrite Qmult_1_r. exact Hcap.
  - intros k Hk Hcap.
    replace (S k - 1) with k by lia.
    rewrite (Q.min_l _ _ Hcap).
    destruct k as [|j]; [lia|].
    replace (S j - 1) with j by lia.
    rewrite Q.min_l.
    + rewrite two_power_succ. ring.
    + apply Qle_trans with (baseDelay cfg * 2 ^ Z.of_nat (S j))%Q;
        [|exact Hcap].
      rewrite !(Qmult_comm (baseDelay cfg)).
      apply Qmult_le_compat_r; [|exact Hbase].
      apply two_power_monotone. lia.
Qed.

Lemma backoffDelay_doubles_up_to_cap_witness :
  (forall k, backoffDelay adapter_retry k <= 10000)%Q
  /\ (forall k k',
         k <= k' ->
         (backoffDelay adapter_retry k <= backoffDelay adapter_retry k')%Q)
  /\ ((1000 <= 10000)%Q -> (backoffDelay adapter_retry 1 == 1000)%Q)
  /\ (forall k,
         1 <= k ->
         (1000 * 2 ^ Z.of_nat k <= 10000)%Q ->
         (backoffDelay adapter_retry (S k)
          == 2 * backoffDelay adapter_retry k)%Q).
Proof.
  apply (backoffDelay_doubles_up_to_cap adapter_retry).
  unfold Qle; simpl; lia.
Defined.

(** ** Methods built on the executor *)

Section ExecutorFacts.

Context {Store T : Type}.
Variable rcfg : RetryConfig.
Variable bcfg : BreakerConfig.
Variable random : nat -> Q.
Variable op : operation Store T.

(** A call that the breaker does not reject is one run of the retry loop,
    whose outcome and events are handed back unchanged. *)
Lemma withDatabase_admitted context b b' (w w' : world Store) r evs :
  withDatabase rcfg bcfg random op context b w = (r, evs, b', w') ->
  r <> Thrown CircuitOpenError ->
  exists r0, withRetry rcfg random op w = (r0, evs, w') /\ r = propagate r0.
Proof.
  unfold withDatabase, withCircuitBreaker. intros Hrun Hr.
  destruct (execute_outcome _ _ _ _ _ _ _ _ Hrun)
    as [(Hopen & _)|(r0 & Hact & Hr0)]; [contradiction|].
  exists r0; split; assumption.
Qed.

Lemma withRetry_resolves_at_once (w : world Store) v d :
  1 <= maxRetries rcfg ->
  op (dep w) = (inl v, d) ->
  withRetry rcfg random op w = (Returned v, [EvInvoke None], set_dep d w).
Proof.
  intros Hpos Hop. unfold withRetry.
  destruct (maxRetries rcfg) as [|n]; [lia|].
  apply retry_loop_resolved; exact Hop.
Qed.

Lemma withRetry_returned_inv (w w' : world Store) v evs :
  withRetry rcfg random op w = (Returned v, evs, w') ->
  exists d, op d = (inl v, dep w').
Proof.
  unfold withRetry. intros Hrun.
  destruct (retry_loop_returned rcfg random op _ _ _ _ _ _ _ Hrun)
    as (d & Hd & _).
  exists d; exact Hd.
Qed.

Lemma withRetry_thrown_inv (w w' : world Store) t evs :
  1 <= maxRetries rcfg ->
  withRetry rcfg random op w = (Thrown t, evs, w') ->
  exists error d,
    op d = (inr error, dep w')
    /\ t = ErrorInstance (as_Error error)
    /\ invocations evs = maxRetries rcfg.
Proof.
  unfold withRetry. intros Hpos Hrun.
  assert (Hsum : maxRetries rcfg + 1 = S (maxRetries rcfg)) by lia.
  destruct (retry_loop_thrown rcfg random op _ _ _ _ _ _ _ Hpos Hsum Hrun)
    as (error & d & Hd & Ht & Hinv & _).
  exists error, d; repeat split; assumption.
Qed.

(** An operation that rejects with one and the same value at every
    invocation uses up the whole budget, and that value is thrown. *)
Lemma withRetry_rejecting_throughout (w : world Store) (error : js_thrown) :
  1 <= maxRetries rcfg ->
  (forall d, exists d', op d = (inr error, d')) ->
  exists evs w',
    withRetry rcfg random op w
    = (Thrown (ErrorInstance (as_Error error)), evs, w')
    /\ invocations evs = maxRetries rcfg
    /\ S (List.length (delays evs)) = maxRetries rcfg.
Proof.
  intros Hpos Hop.
  assert (Hrej : forall n d last,
             1 <= n -> exists d', reject_run op n d last = Some (error, d')).
  { induction n as [|n IH]; intros d last Hn; [lia|].
    simpl. destruct (Hop d) as (d1 & ->).
    destruct n as [|m]; [exists d1; reflexivity|].
    apply IH; lia. }
  destruct (Hrej (maxRetries rcfg) (dep w)
              (ErrorInstance (new_Error "Unknown error")) Hpos)
    as (d' & Hrun).
  destruct (withRetry_exhausted_run rcfg random op w _ _ Hpos Hrun)
    as (evs & w' & Hretry & Hinv & _).
  exists evs, w'. split; [exact Hretry|]. split; [exact Hinv|].
  assert (Hsum : maxRetries rcfg + 1 = S (maxRetries rcfg)) by lia.
  unfold withRetry in Hretry.
  destruct (retry_loop_budget rcfg random op _ _ _ _ _ _ _ Hpos Hsum Hretry)
    as (_ & Hlen & _).
  lia.
Qed.

(** The executor sees an operation only through what it answers. *)
Lemma retry_loop_ext (op' : operation Store T) :
  (forall d, op d = op' d) ->
  forall iterations attempt last w,
    retry_loop rcfg random op iterations attempt last w
    = retry_loop rcfg random op' iterations attempt last w.
Proof.
  intros Hext. induction iterations as [|rest IH]; intros attempt last w;
    [reflexivity|].
  simpl. rewrite <- Hext.
  destruct (op (dep w)) as [[v|error] d]; [reflexivity|].
  destruct (attempt <? maxRetries rcfg); [|reflexivity].
  rewrite IH. reflexivity.
Qed.

Lemma withDatabase_ext (op' : operation Store T) context b (w : world Store) :
  (forall d, op d = op' d) ->
  withDatabase rcfg bcfg random op context b w
  = withDatabase rcfg bcfg random op' context b w.
Proof.
  intros Hext.
  assert (Hact : forall w0 : world Store,
             withRetry rcfg random op w0 = withRetry rcfg random op' w0)
    by (intros w0; unfold withRetry; apply retry_loop_ext, Hext).
  unfold withDatabase, withCircuitBreaker, execute, run_and_record.
  rewrite !Hact. reflexivity.
Qed.

(** An operation that rejects with one and the same error and leaves the
    environment alone uses up the whole budget. *)
Lemma withRetry_constant_rejection (w : world Store) (e : JsError) :
  1 <= maxRetries rcfg ->
  (forall d, op d = (inr (ErrorInstance e), d)) ->
  exists evs w',
    withRetry rcfg random op w = (Thrown (ErrorInstance e), evs, w')
    /\ invocations evs = maxRetries rcfg
    /\ S (List.length (delays evs)) = maxRetries rcfg
    /\ dep w' = dep w.
Proof.
  intros Hpos Hop.
  assert (Hrej : forall n last,
             1 <= n ->
             reject_run op n (dep w) last = Some (ErrorInstance e, dep w)).
  { induction n as [|n IH]; intros last Hn; [lia|].
    simpl. rewrite Hop. destruct n as [|m]; [reflexivity|].
    apply IH; lia. }
  destruct (withRetry_exhausted_run rcfg random op w _ _ Hpos
              (Hrej _ _ Hpos)) as (evs & w' & Hrun & Hinv & Hdep & _).
  exists evs, w'. split; [exact Hrun|]. split; [exact Hinv|].
  split; [|exact Hdep].
  assert (Hsum : maxRetries rcfg + 1 = S (maxRetries rcfg)) by lia.
  unfold withRetry in Hrun.
  destruct (retry_loop_budget rcfg random op _ _ _ _ _ _ _ Hpos Hsum Hrun)
    as (_ & Hlen & _).
  lia.
Qed.

End ExecutorFacts.

Lemma set_dep_same {Store : Type} (w : world Store) : set_dep (dep w) w = w.
Proof. destruct w; reflexivity. Qed.

Lemma truthy_string_empty (s : string) :
  truthy_string s = false <-> s = "".
Proof.
  unfold truthy_string. rewrite negb_false_iff. apply String.eqb_eq.
Qed.

(** ** [Array.from(new Set(...))] *)

Lemma existsb_eqb_In (v : string) (seen : list string) :
  existsb (String.eqb v) seen = true <-> In v seen.
Proof.
  rewrite existsb_exists. split.
  - intros (x & Hin & Heq). apply String.eqb_eq in Heq. now subst.
  - intros Hin. exists v; split; [exact Hin | apply String.eqb_refl].
Qed.

Lemma Set_add_all_In (values : list string) :
  forall seen x,
    In x (Set_add_all seen values) <-> In x seen \/ In x values.
Proof.
  induction values as [|v rest IH]; intros seen x; simpl.
  - tauto.
  - destruct (existsb (String.eqb v) seen) eqn:Hv.
    + rewrite IH. apply existsb_eqb_In in Hv.
      split; [tauto|]. intros [H|[H|H]]; subst; tauto.
    + rewrite IH, in_app_iff. simpl. tauto.
Qed.

Lemma Set_add_all_NoDup (values : list string) :
  forall seen, NoDup seen -> NoDup (Set_add_all seen values).
Proof.
  induction values as [|v rest IH]; intros seen Hseen; simpl.
  - exact Hseen.
  - destruct (existsb (String.eqb v) seen) eqn:Hv.
    + apply IH; exact Hseen.
    + apply IH. apply NoDup_app; [exact Hseen | repeat constructor; tauto |].
      intros x Hx [<-|[]].
      apply existsb_eqb_In in Hx. congruence.
Qed.

Lemma Set_add_all_distinct (values : list string) :
  forall seen,
    NoDup (seen ++ values) -> Set_add_all seen values = (seen ++ values)%list.
Proof.
  induction values as [|v rest IH]; intros seen Hnd; simpl.
  - now rewrite app_nil_r.
  - destruct (existsb (String.eqb v) seen) eqn:Hv.
    + apply existsb_eqb_In in Hv.
      apply NoDup_remove_2 in Hnd. exfalso; apply Hnd.
      apply in_or_app; left; exact Hv.
    + rewrite IH.
      * now rewrite <- app_assoc.
      * now rewrite <- app_assoc.
Qed.

(** ** The data-access methods *)

Section DataAccessFacts.

Context {Store Json Fields : Type}.
Variable rcfg : RetryConfig.
Variable bcfg : BreakerConfig.
Variable random : nat -> Q.
Variable JSON_parse : string -> Json + JsError.
Variable JSON_stringify : Json -> option string + js_thrown.
Variable uuidv4 : Store -> string * Store.
Variable empty_object : Json.
Variable Date_now : Store -> Q.
Hypothesis budget : 1 <= maxRetries rcfg.

(** X5: [getMemories] rejects a call without [tableName], and then one
    without [roomId], before the executor is entered: nothing is
    requested and the breaker is not told.  With both present, any other
    error it throws comes after exactly [maxRetries] requests. *)
Theorem getMemories_rejections :
  forall (find_memories :
            memories_query -> option Q
            -> operation Store (list (@memory_row Json Fields)))
         (params : GetMemoriesParams) (b : CircuitBreaker) (w : world Store),
    (tableName params = "" ->
     getMemories rcfg bcfg random JSON_parse find_memories params b w
     = (Thrown (JsThrown (ErrorInstance (new_Error "tableName is required"))),
        [], b, w))
    /\ (tableName params <> "" ->
        roomId params = "" ->
        getMemories rcfg bcfg random JSON_parse find_memories params b w
        = (Thrown (JsThrown (ErrorInstance (new_Error "roomId is required"))),
           [], b, w))
    /\ (tableName params <> "" ->
        roomId params <> "" ->
        forall t evs b' w',
          getMemories rcfg bcfg random JSON_parse find_memories params b w
          = (Thrown (JsThrown t), evs, b', w') ->
          invocations evs = maxRetries rcfg
          /\ exists error d,
               getMemories_operation JSON_parse find_memories params d
               = (inr error, dep w')
               /\ t = ErrorInstance (as_Error error)).
Proof.
  intros find_memories params b w. unfold getMemories.
  pose proof (truthy_string_empty (tableName params)) as Ht.
  pose proof (truthy_string_empty (roomId params)) as Hr.
  destruct (truthy_string (tableName params));
    [destruct (truthy_string (roomId params))|]; simpl.
  2: { split; [intros H; apply Ht in H; discriminate|].
       split; [intros; reflexivity|].
       intros _ H. exfalso; apply H, Hr; reflexivity. }
  2: { split; [intros; reflexivity|].
       split; intros H; exfalso; apply H, Ht; reflexivity. }
  split; [intros H; apply Ht in H; discriminate|].
  split; [intros _ H; apply Hr in H; discriminate|].
  intros _ _ t evs b' w' Hrun.
  destruct (withDatabase_admitted _ _ _ _ _ _ _ _ _ _ _ Hrun)
    as (r0 & Hretry & Hr0); [discriminate|].
  destruct r0 as [v|e]; [discriminate|]. injection Hr0 as ->.
  destruct (withRetry_thrown_inv _ _ _ _ _ _ _ budget Hretry)
    as (error & d & Hd & He & Hinv).
  split; [exact Hinv|]. exists error, d; split; assumption.
Qed.

(** X6: with an empty list of room ids, [getMemoriesByRoomIds] resolves
    with the empty list after a single pass through the executor, and the
    environment is left as it was: no request is sent, whatever the client
    would have answered. *)
Theorem getMemoriesByRoomIds_empty :
  forall (find_memories_in_rooms :
            rooms_query -> operation Store (list (@memory_row Json Fields)))
         (params : MemoriesByRoomIdsParams) (b b' : CircuitBreaker)
         (w w' : world Store) r evs,
    mr_roomIds params = [] ->
    getMemoriesByRoomIds rcfg bcfg random JSON_parse find_memories_in_rooms
      params b w = (r, evs, b', w') ->
    r <> Thrown CircuitOpenError ->
    r = Returned [] /\ evs = [EvInvoke None] /\ w' = w.
Proof.
  intros find params b b' w w' r evs Hempty Hrun Hadm.
  unfold getMemoriesByRoomIds in Hrun.
  destruct (withDatabase_admitted _ _ _ _ _ _ _ _ _ _ _ Hrun Hadm)
    as (r0 & Hretry & ->).
  rewrite (withRetry_resolves_at_once rcfg random _ w [] (dep w) budget)
    in Hretry.
  - injection Hretry as <- <- <-. rewrite set_dep_same. repeat split.
  - unfold getMemoriesByRoomIds_operation. rewrite Hempty. reflexivity.
Qed.

(** The ids read off the participant records, when every record has one. *)
Lemma room_ids_resolved (undefined_toString : JsError)
    (rooms : list participant_row) :
  forall ids,
    room_ids undefined_toString rooms = inl ids ->
    map pr_roomId rooms = map Some ids.
Proof.
  induction rooms as [|room rest IH]; intros ids; simpl.
  - intros H; injection H as <-. reflexivity.
  - destruct (pr_roomId room) as [id|]; [|discriminate].
    destruct (room_ids undefined_toString rest) as [ids'|e]; [|discriminate].
    intros H; injection H as <-. simpl. f_equal. apply IH. reflexivity.
Qed.

(** X7: the list [getRoomsForParticipants] returns has no duplicate, holds
    exactly the room ids of the participant records the client answered
    with, and is that list of ids itself when they were already distinct;
    [getRoomsForParticipant] returns one id per record, in order,
    duplicates included. *)
Theorem getRoomsForParticipants_distinct :
  forall (undefined_toString : JsError)
         (find_participants_of_user :
            string -> operation Store (list participant_row))
         (find_participants_of_users :
            list string -> operation Store (list participant_row)),
    (forall userIds b b' (w w' : world Store) ids evs,
        getRoomsForParticipants rcfg bcfg random undefined_toString
          find_participants_of_users userIds b w
        = (Returned ids, evs, b', w') ->
        NoDup ids
        /\ exists d rooms all,
             find_participants_of_users userIds d = (inl rooms, dep w')
             /\ map pr_roomId rooms = map Some all
             /\ (forall id, In id ids <-> In id all)
             /\ (NoDup all -> ids = all))
    /\ (forall userId b b' (w w' : world Store) ids evs,
           getRoomsForParticipant rcfg bcfg random undefined_toString
             find_participants_of_user userId b w
           = (Returned ids, evs, b', w') ->
           exists d rooms,
             find_participants_of_user userId d = (inl rooms, dep w')
             /\ map pr_roomId rooms = map Some ids).
Proof.
  intros undefined_toString find_one find_many; split.
  - intros userIds b b' w w' ids evs Hrun.
    unfold getRoomsForParticipants in Hrun.
    destruct (withDatabase_returned _ _ _ _ _ _ _ _ _ _ _ Hrun)
      as (d & Hop & _).
    unfold getRoomsForParticipants_operation in Hop.
    destruct (find_many userIds d) as [[rooms|error] d'] eqn:Hfind;
      [|discriminate].
    destruct (room_ids undefined_toString rooms) as [all|e] eqn:Hall;
      [|discriminate].
    injection Hop as <- <-.
    split; [apply Set_add_all_NoDup; constructor|].
    exists d, rooms, all. split; [exact Hfind|].
    split; [exact (room_ids_resolved _ _ _ Hall)|].
    split.
    + intros id. unfold Array_from_Set. rewrite Set_add_all_In. simpl.
      split; [intros [[]|H]; exact H | intros H; right; exact H].
    + intros Hnd. exact (Set_add_all_distinct all [] Hnd).
  - intros userId b b' w w' ids evs Hrun.
    unfold getRoomsForParticipant in Hrun.
    destruct (withDatabase_returned _ _ _ _ _ _ _ _ _ _ _ Hrun)
      as (d & Hop & _).
    unfold getRoomsForParticipant_operation in Hop.
    destruct (find_one userId d) as [[rooms|error] d'] eqn:Hfind;
      [|discriminate].
    destruct (room_ids undefined_toString rooms) as [all|e] eqn:Hall;
      [|discriminate].
    injection Hop as <- <-.
    exists d, rooms. split; [exact Hfind|].
    exact (room_ids_resolved _ _ _ Hall).
Qed.

(** An operation that never rejects is invoked once by the executor and
    never retried. *)
Lemma withDatabase_of_total_operation {T : Type} (op : operation Store T)
    context b b' (w w' : world Store) r evs :
  (forall d, exists v d', op d = (inl v, d')) ->
  withDatabase rcfg bcfg random op context b w = (r, evs, b', w') ->
  r <> Thrown CircuitOpenError ->
  exists v,
    op (dep w) = (inl v, dep w')
    /\ r = Returned v
    /\ evs = [EvInvoke None].
Proof.
  intros Htotal Hrun Hadm.
  destruct (withDatabase_admitted _ _ _ _ _ _ _ _ _ _ _ Hrun Hadm)
    as (r0 & Hretry & ->).
  destruct (Htotal (dep w)) as (v & d' & Hop).
  rewrite (withRetry_resolves_at_once rcfg random op w v d' budget Hop)
    in Hretry.
  injection Hretry as <- <- <-.
  exists v. repeat split. exact Hop.
Qed.

Lemma true_unless_thrown_total (request : operation Store unit) :
  forall d, exists v d', true_unless_thrown request d = (inl v, d').
Proof.
  intros d. unfold true_unless_thrown.
  destruct (request d) as [[u|e] d']; eauto.
Qed.

(** X8: [addParticipant], [removeParticipant] and [deleteCache] never
    pass a failure of their remote request on: unless the breaker rejects
    the call, each sends its request exactly once, is never retried, and
    resolves with [true] when the request resolved and with [false] when
    it was rejected. *)
Theorem participant_and_cache_writes_never_throw :
  forall (insert_participant : participant_doc -> operation Store unit)
         (delete_participant : string -> string -> operation Store unit)
         (delete_cache : string -> string -> operation Store unit)
         (b b' : CircuitBreaker) (w w' : world Store) r evs,
    r <> Thrown CircuitOpenError ->
    (forall userId roomId,
        addParticipant rcfg bcfg random uuidv4 insert_participant userId
          roomId b w = (r, evs, b', w') ->
        evs = [EvInvoke None]
        /\ exists outcome,
             insert_participant
               {| pd_id := fst (uuidv4 (dep w)); pd_userId := userId;
                  pd_roomId := roomId |} (snd (uuidv4 (dep w)))
             = (outcome, dep w')
             /\ r = Returned (is_resolved outcome))
    /\ (forall userId roomId,
           removeParticipant rcfg bcfg random delete_participant userId
             roomId b w = (r, evs, b', w') ->
           evs = [EvInvoke None]
           /\ exists outcome,
                delete_participant userId roomId (dep w) = (outcome, dep w')
                /\ r = Returned (is_resolved outcome))
    /\ (forall key agentId,
           deleteCache rcfg bcfg random delete_cache key agentId b w
           = (r, evs, b', w') ->
           evs = [EvInvoke None]
           /\ exists outcome,
                delete_cache key agentId (dep w) = (outcome, dep w')
                /\ r = Returned (is_resolved outcome)).
Proof.
  intros insert_participant delete_participant delete_cache b b' w w' r evs
    Hadm.
  split; [|split].
  - intros userId roomId Hrun. unfold addParticipant in Hrun.
    assert (Htotal : forall d, exists v d',
               addParticipant_operation uuidv4 insert_participant userId
                 roomId d = (inl v, d')).
    { intros d. unfold addParticipant_operation.
      destruct (uuidv4 d). apply true_unless_thrown_total. }
    destruct (withDatabase_of_total_operation _ _ _ _ _ _ _ _ Htotal Hrun
                Hadm) as (v & Hop & -> & ->).
    split; [reflexivity|].
    unfold addParticipant_operation, true_unless_thrown in Hop.
    destruct (uuidv4 (dep w)) as [id d0]; simpl.
    destruct (insert_participant _ d0) as [[u|e] d'];
      injection Hop as <- <-; eexists; split; reflexivity.
  - intros userId roomId Hrun. unfold removeParticipant in Hrun.
    destruct (withDatabase_of_total_operation _ _ _ _ _ _ _ _
                (true_unless_thrown_total _) Hrun Hadm)
      as (v & Hop & -> & ->).
    split; [reflexivity|].
    unfold true_unless_thrown in Hop.
    destruct (delete_participant userId roomId (dep w)) as [[u|e] d'];
      injection Hop as <- <-; eexists; split; reflexivity.
  - intros key agentId Hrun. unfold deleteCache in Hrun.
    destruct (withDatabase_of_total_operation _ _ _ _ _ _ _ _
                (true_unless_thrown_total _) Hrun Hadm)
      as (v & Hop & -> & ->).
    split; [reflexivity|].
    unfold true_unless_thrown in Hop.
    destruct (delete_cache key agentId (dep w)) as [[u|e] d'];
      injection Hop as <- <-; eexists; split; reflexivity.
Qed.

(** X9: [getCache] never throws an error of its request: unless the
    breaker rejects the call, it sends one request, is never retried, and
    resolves with the [value] of the first entry found; a rejected request
    and an absent entry both give [undefined], so the caller cannot tell
    them apart. *)
Theorem getCache_failure_looks_like_miss :
  forall (find_cache : string -> string -> operation Store (list cache_row))
         (key agentId : string) (b b' : CircuitBreaker) (w w' : world Store)
         r evs,
    getCache rcfg bcfg random find_cache key agentId b w = (r, evs, b', w') ->
    r <> Thrown CircuitOpenError ->
    evs = [EvInvoke None]
    /\ exists answer,
         find_cache key agentId (dep w) = (answer, dep w')
         /\ r = Returned match answer with
                         | inl (cacheEntry :: _) => cr_value cacheEntry
                         | inl [] => None
                         | inr _ => None
                         end.
Proof.
  intros find_cache key agentId b b' w w' r evs Hrun Hadm.
  unfold getCache in Hrun.
  assert (Htotal : forall d, exists v d',
             getCache_operation find_cache key agentId d = (inl v, d')).
  { intros d. unfold getCache_operation.
    destruct (find_cache key agentId d) as [[l|e] d']; eauto. }
  destruct (withDatabase_of_total_operation _ _ _ _ _ _ _ _ Htotal Hrun Hadm)
    as (v & Hop & -> & ->).
  split; [reflexivity|].
  unfold getCache_operation in Hop.
  destruct (find_cache key agentId (dep w)) as [[entries|e] d'];
    injection Hop as <- <-; eexists; split; reflexivity.
Qed.

(** X10: when [getMemoryById] returns, the client answered its last
    request either with no record, and the result is [null], or with
    records, and the result is the first of them with its [content] parsed
    when it was a string; an id that is not found is no error, and when the
    first request finds nothing the method resolves at once. *)
Theorem getMemoryById_missing_is_null :
  forall (find_memory_by_id :
            string -> operation Store (list (@memory_row Json Fields)))
         (id : string) (b b' : CircuitBreaker) (w w' : world Store) r evs,
    getMemoryById rcfg bcfg random JSON_parse find_memory_by_id id b w
    = (r, evs, b', w') ->
    (forall found,
        r = Returned found ->
        exists d memorys,
          find_memory_by_id id d = (inl memorys, dep w')
          /\ match memorys with
             | [] => found = None
             | memory :: _ =>
               exists m,
                 parse_row JSON_parse memory = inl m /\ found = Some m
             end)
    /\ (r <> Thrown CircuitOpenError ->
        forall d',
          find_memory_by_id id (dep w) = (inl [], d') ->
          r = Returned None /\ evs = [EvInvoke None] /\ dep w' = d').
Proof.
  intros find_memory_by_id id b b' w w' r evs Hrun.
  unfold getMemoryById in Hrun. split.
  - intros found ->.
    destruct (withDatabase_returned _ _ _ _ _ _ _ _ _ _ _ Hrun)
      as (d & Hop & _).
    unfold getMemoryById_operation in Hop.
    destruct (find_memory_by_id id d) as [[memorys|error] d1] eqn:Hfind;
      [|discriminate].
    destruct memorys as [|memory rest].
    + injection Hop as <- <-. exists d, []. split; [exact Hfind | reflexivity].
    + destruct (parse_row JSON_parse memory) as [m|e] eqn:Hparse;
        [|discriminate].
      injection Hop as <- <-. exists d, (memory :: rest).
      split; [exact Hfind|]. exists m; split; [exact Hparse | reflexivity].
  - intros Hadm d' Hfind.
    destruct (withDatabase_admitted _ _ _ _ _ _ _ _ _ _ _ Hrun Hadm)
      as (r0 & Hretry & ->).
    rewrite (withRetry_resolves_at_once rcfg random _ w None d' budget)
      in Hretry.
    + injection Hretry as <- <- <-. repeat split.
    + unfold getMemoryById_operation. rewrite Hfind. reflexivity.
Qed.

(** X11: [getActorDetails] rejects an empty [roomId] before the executor
    is entered.  When it returns, it returns one actor for each account
    record the client found, details that do not parse being replaced by
    the empty object rather than failing the call.  An error it throws
    comes after [maxRetries] attempts and is a plain [Error] made from the
    rejection of a request of the last attempt, the lookup of the
    participants or, that one answered, the lookup of their accounts: its
    message is "Failed to fetch actor details: " followed by the text of
    that rejection. *)
Theorem getActorDetails_outcomes :
  forall (find_participants_in_room :
            string -> operation Store (list participant_row))
         (find_accounts_of :
            list participant_row
            -> operation Store (list (@actor_row Json Fields)))
         (roomId : string) (b b' : CircuitBreaker) (w w' : world Store)
         r evs,
    getActorDetails rcfg bcfg random JSON_parse empty_object
      find_participants_in_room find_accounts_of roomId b w
    = (r, evs, b', w') ->
    (roomId = "" ->
     r = Thrown (JsThrown (ErrorInstance (new_Error "roomId is required")))
     /\ evs = [] /\ b' = b /\ w' = w)
    /\ (forall actors,
           r = Returned actors ->
           exists d d1 participants accounts,
             find_participants_in_room roomId d = (inl participants, d1)
             /\ find_accounts_of participants d1 = (inl accounts, dep w')
             /\ actors = map (actor_of JSON_parse empty_object) accounts)
    /\ (roomId <> "" ->
        forall t,
          r = Thrown (JsThrown t) ->
          invocations evs = maxRetries rcfg
          /\ exists error d,
               (find_participants_in_room roomId d = (inr error, dep w')
                \/ exists participants d1,
                     find_participants_in_room roomId d
                     = (inl participants, d1)
                     /\ find_accounts_of participants d1
                        = (inr error, dep w'))
               /\ t = ErrorInstance
                        (new_Error ("Failed to fetch actor details: "
                                    ++ error_text error))).
Proof.
  intros find_participants_in_room find_accounts_of roomId b b' w w' r evs.
  unfold getActorDetails.
  pose proof (truthy_string_empty roomId) as Hempty.
  destruct (truthy_string roomId); simpl; intros Hrun.
  - split; [intros H; apply Hempty in H; discriminate|]. split.
    + intros actors ->.
      destruct (withDatabase_returned _ _ _ _ _ _ _ _ _ _ _ Hrun)
        as (d & Hop & _).
      unfold getActorDetails_operation in Hop.
      destruct (find_participants_in_room roomId d)
        as [[participants|error] d1] eqn:Hfirst; [|discriminate].
      destruct (find_accounts_of participants d1)
        as [[accounts|error] d2] eqn:Hsecond; [|discriminate].
      injection Hop as <- <-.
      exists d, d1, participants, accounts.
      split; [exact Hfirst|]. split; [exact Hsecond | reflexivity].
    + intros _ t ->.
      destruct (withDatabase_admitted _ _ _ _ _ _ _ _ _ _ _ Hrun)
        as (r0 & Hretry & Hr0); [discriminate|].
      destruct r0 as [v|e]; [discriminate|]. injection Hr0 as ->.
      destruct (withRetry_thrown_inv _ _ _ _ _ _ _ budget Hretry)
        as (error & d & Hop & -> & Hinv).
      split; [exact Hinv|].
      unfold getActorDetails_operation in Hop.
      destruct (find_participants_in_room roomId d)
        as [[participants|e1] d1] eqn:Hfirst.
      * destruct (find_accounts_of participants d1) as [[accounts|e2] d2]
          eqn:Hsecond; [discriminate|].
        injection Hop as <- <-. exists e2, d.
        split; [|reflexivity]. right. exists participants, d1.
        split; [exact Hfirst | exact Hsecond].
      * injection Hop as <- <-. exists e1, d.
        split; [left; exact Hfirst | reflexivity].
  - unfold reject_with in Hrun. injection Hrun as <- <- <- <-.
    split; [intros _; repeat split|].
    split; [intros actors H; discriminate|].
    intros H. exfalso; apply H, Hempty; reflexivity.
Qed.



(** X12: an embedding whose length is not the configured dimension is
    refused inside the operation, so the refusal is retried like any
    other failure: unless the breaker rejects the call,
    [searchMemoriesByEmbedding] and [searchMemories] throw "Invalid
    embedding dimension: expected D, got L" only after [maxRetries]
    attempts and [maxRetries - 1] suspensions, none of which sends a
    request. *)
Theorem searchMemoriesByEmbedding_wrong_dimension :
  forall (dimensions : nat) (toFixed6 : Q -> Q)
         (find_by_vector :
            vector_query -> option Q
            -> operation Store (list (@memory_row Json Fields)))
         (b b' : CircuitBreaker) (w w' : world Store) r evs,
    r <> Thrown CircuitOpenError ->
    (forall embedding params,
        List.length embedding <> dimensions ->
        searchMemoriesByEmbedding rcfg bcfg random JSON_parse dimensions
          toFixed6 find_by_vector embedding params b w = (r, evs, b', w') ->
        r = Thrown
              (JsThrown
                 (ErrorInstance
                    (new_Error
                       ("Invalid embedding dimension: expected "
                        ++ string_of_nat dimensions ++ ", got "
                        ++ string_of_nat (List.length embedding)))))
        /\ invocations evs = maxRetries rcfg
        /\ S (List.length (delays evs)) = maxRetries rcfg
        /\ dep w' = dep w)
    /\ (forall params,
           List.length (sm_embedding params) <> dimensions ->
           searchMemories rcfg bcfg random JSON_parse dimensions toFixed6
             find_by_vector params b w = (r, evs, b', w') ->
           r = Thrown
                 (JsThrown
                    (ErrorInstance
                       (new_Error
                          ("Invalid embedding dimension: expected "
                           ++ string_of_nat dimensions ++ ", got "
                           ++ string_of_nat
                                (List.length (sm_embedding params))))))
           /\ invocations evs = maxRetries rcfg
           /\ S (List.length (delays evs)) = maxRetries rcfg
           /\ dep w' = dep w).
Proof.
  intros dimensions toFixed6 find_by_vector b b' w w' r evs Hadm.
  assert (Hmain : forall embedding params,
             List.length embedding <> dimensions ->
             searchMemoriesByEmbedding rcfg bcfg random JSON_parse dimensions
               toFixed6 find_by_vector embedding params b w
             = (r, evs, b', w') ->
             r = Thrown (JsThrown (invalid_dimension dimensions
                                     (List.length embedding)))
             /\ invocations evs = maxRetries rcfg
             /\ S (List.length (delays evs)) = maxRetries rcfg
             /\ dep w' = dep w).
  { intros embedding params Hlen Hrun.
    unfold searchMemoriesByEmbedding in Hrun.
    destruct (withDatabase_admitted _ _ _ _ _ _ _ _ _ _ _ Hrun Hadm)
      as (r0 & Hretry & ->).
    destruct (withRetry_constant_rejection rcfg random
                (searchMemoriesByEmbedding_operation JSON_parse dimensions
                   toFixed6 find_by_vector embedding params) w
                (new_Error ("Invalid embedding dimension: expected "
                            ++ string_of_nat dimensions ++ ", got "
                            ++ string_of_nat (List.length embedding)))
                budget)
      as (evs0 & w0' & Hrun0 & Hinv & Hdel & Hdep).
    - intros d. unfold searchMemoriesByEmbedding_operation.
      destruct (Nat.eqb_spec (List.length embedding) dimensions);
        [contradiction | reflexivity].
    - rewrite Hrun0 in Hretry. injection Hretry as <- <- <-.
      repeat split; assumption. }
  split; [exact Hmain|].
  intros params Hlen Hrun. unfold searchMemories in Hrun.
  exact (Hmain _ _ Hlen Hrun).
Qed.


(** X14: [countMemories] never resolves with a number.  Without a
    [tableName] (the default is the empty string) it rejects with
    "tableName is required" before the executor is entered; with one,
    unless the breaker rejects the call, it resolves with [undefined] after
    a single invocation, whatever the client answers. *)
Theorem countMemories_never_counts :
  forall (find_memories_to_count :
            count_query -> operation Store (list (@memory_row Json Fields)))
         (roomId : string) (unique : option bool) (tableName : option string)
         (b b' : CircuitBreaker) (w w' : world Store) r evs,
    countMemories rcfg bcfg random find_memories_to_count roomId unique
      tableName b w = (r, evs, b', w') ->
    ((tableName = None \/ tableName = Some "") ->
     r = Thrown (JsThrown (ErrorInstance (new_Error "tableName is required")))
     /\ evs = [] /\ b' = b /\ w' = w)
    /\ (r <> Thrown CircuitOpenError ->
        forall name,
          tableName = Some name -> name <> "" ->
          r = Returned None /\ evs = [EvInvoke None])
    /\ (forall n : Q, r <> Returned (Some n)).
Proof.
  intros find_memories_to_count roomId unique tableName b b' w w' r evs.
  unfold countMemories. cbv zeta.
  set (name := match tableName with Some t => t | None => "" end).
  pose proof (truthy_string_empty name) as Hempty.
  assert (Hname : (tableName = None \/ tableName = Some "") <-> name = "").
  { subst name. destruct tableName as [t|]; split.
    - intros [H|H]; [discriminate | now injection H].
    - intros ->; now right.
    - intros _; reflexivity.
    - intros _; now left. }
  destruct (truthy_string name); simpl; intros Hrun.
  - assert (Hadmitted : r <> Thrown CircuitOpenError ->
              r = Returned None /\ evs = [EvInvoke None]).
    { intros Hadm.
      destruct (withDatabase_admitted _ _ _ _ _ _ _ _ _ _ _ Hrun Hadm)
        as (r0 & Hretry & ->).
      rewrite (withRetry_resolves_at_once rcfg random
                 (countMemories_operation find_memories_to_count roomId
                    match unique with Some u => u | None => true end name)
                 w None _ budget eq_refl) in Hretry.
      injection Hretry as <- <- <-. split; reflexivity. }
    split; [intros H; apply Hname, Hempty in H; discriminate|].
    split; [intros Hadm name' _ _; exact (Hadmitted Hadm)|].
    intros n Hn.
    destruct Hadmitted as [Hr _]; [rewrite Hn; discriminate|].
    rewrite Hn in Hr; discriminate.
  - unfold reject_with in Hrun. injection Hrun as <- <- <- <-.
    split; [intros _; repeat split|].
    split; [|intros n; discriminate].
    intros _ name' -> Hne. exfalso; apply Hne, Hempty; reflexivity.
Qed.

(** X15: [log] checks its arguments in the order [userId], [roomId],
    [type], [body] and rejects the first that is missing, or a body that is
    not an object, before the executor is entered.  Once they are all
    valid, the body is serialised inside the operation, at every attempt.
    When [JSON.stringify] throws, no insert request is ever sent (the
    call settles the same whatever the insert would do) and, unless the
    breaker rejects the call, that error is thrown after [maxRetries]
    attempts.  When the body serialises, an error the call throws is the
    error of the insert request of the last of [maxRetries] attempts, whose
    document holds the identifier just drawn and the serialised body. *)
Theorem log_validates_before_executor :
  forall (insert_log : log_doc -> operation Store unit)
         (params : LogParams) (b b' : CircuitBreaker) (w w' : world Store)
         r evs,
    log rcfg bcfg random JSON_stringify uuidv4 Date_now insert_log params b w
    = (r, evs, b', w') ->
    let rejected message :=
      r = Thrown (JsThrown (ErrorInstance (new_Error message)))
      /\ evs = [] /\ b' = b /\ w' = w in
    (lg_userId params = "" -> rejected "userId is required")
    /\ (lg_userId params <> "" -> lg_roomId params = "" ->
        rejected "roomId is required")
    /\ (lg_userId params <> "" -> lg_roomId params <> "" ->
        lg_type params = "" -> rejected "type is required")
    /\ (lg_userId params <> "" -> lg_roomId params <> "" ->
        lg_type params <> "" -> lg_body params = NotAnObject ->
        rejected "body must be a valid object")
    /\ (lg_userId params <> "" -> lg_roomId params <> "" ->
        lg_type params <> "" ->
        forall json,
          lg_body params = ObjectBody json ->
          match JSON_stringify json with
          | inr error =>
            (forall insert_log' : log_doc -> operation Store unit,
                log rcfg bcfg random JSON_stringify uuidv4 Date_now
                  insert_log' params b w = (r, evs, b', w'))
            /\ (r <> Thrown CircuitOpenError ->
                r = Thrown (JsThrown (ErrorInstance (as_Error error)))
                /\ invocations evs = maxRetries rcfg)
          | inl body =>
            forall t,
              r = Thrown (JsThrown t) ->
              invocations evs = maxRetries rcfg
              /\ exists error d,
                   insert_log
                     {| ld_id := fst (uuidv4 d); ld_body := body;
                        ld_userId := lg_userId params;
                        ld_roomId := lg_roomId params;
                        ld_type := lg_type params;
                        ld_createdAt := Date_now (snd (uuidv4 d)) |}
                     (snd (uuidv4 d))
                   = (inr error, dep w')
                   /\ t = ErrorInstance (as_Error error)
          end).
Proof.
  intros insert_log params b b' w w' r evs. unfold log.
  pose proof (truthy_string_empty (lg_userId params)) as Hu.
  pose proof (truthy_string_empty (lg_roomId params)) as Hr.
  pose proof (truthy_string_empty (lg_type params)) as Ht.
  destruct (truthy_string (lg_userId params)); simpl.
  2: { unfold reject_with. intros Hrun; injection Hrun as <- <- <- <-.
       cbv zeta.
       split; [intros _; repeat split|].
       split; [|split; [|split]];
         intros H; exfalso; apply H, Hu; reflexivity. }
  destruct (truthy_string (lg_roomId params)); simpl.
  2: { unfold reject_with. intros Hrun; injection Hrun as <- <- <- <-.
       cbv zeta.
       split; [intros H; apply Hu in H; discriminate|].
       split; [intros _ _; repeat split|].
       split; [|split]; intros _ H; exfalso; apply H, Hr; reflexivity. }
  destruct (truthy_string (lg_type params)); simpl.
  2: { unfold reject_with. intros Hrun; injection Hrun as <- <- <- <-.
       cbv zeta.
       split; [intros H; apply Hu in H; discriminate|].
       split; [intros _ H; apply Hr in H; discriminate|].
       split; [intros _ _ _; repeat split|].
       split; intros _ _ H; exfalso; apply H, Ht; reflexivity. }
  destruct (lg_body params) as [json|] eqn:Hbody.
  2: { unfold reject_with. intros Hrun; injection Hrun as <- <- <- <-.
       cbv zeta.
       split; [intros H; apply Hu in H; discriminate|].
       split; [intros _ H; apply Hr in H; discriminate|].
       split; [intros _ _ H; apply Ht in H; discriminate|].
       split; [intros _ _ _ _; repeat split|].
       intros _ _ _ json H; discriminate. }
  intros Hrun. cbv zeta.
  split; [intros H; apply Hu in H; discriminate|].
  split; [intros _ H; apply Hr in H; discriminate|].
  split; [intros _ _ H; apply Ht in H; discriminate|].
  split; [intros _ _ _ H; discriminate|].
  intros _ _ _ json' Hjson. injection Hjson as <-.
  destruct (JSON_stringify json) as [body|error] eqn:Hstr.
  - intros t ->.
    destruct (withDatabase_admitted _ _ _ _ _ _ _ _ _ _ _ Hrun)
      as (r0 & Hretry & Hr0); [discriminate|].
    destruct r0 as [v|e]; [discriminate|]. injection Hr0 as ->.
    destruct (withRetry_thrown_inv _ _ _ _ _ _ _ budget Hretry)
      as (error & d & Hd & He & Hinv).
    split; [exact Hinv|]. exists error, d. split; [|exact He].
    unfold log_operation in Hd. rewrite Hstr in Hd.
    destruct (uuidv4 d) as [logId d0]. exact Hd.
  - assert (Hop : forall insert_log' d,
               log_operation JSON_stringify uuidv4 Date_now insert_log
                 params json d
               = log_operation JSON_stringify uuidv4 Date_now insert_log'
                   params json d).
    { intros insert_log' d. unfold log_operation. rewrite Hstr.
      reflexivity. }
    split.
    + intros insert_log'. rewrite <- Hrun. symmetry.
      apply withDatabase_ext. apply Hop.
    + intros Hadm.
      destruct (withDatabase_admitted _ _ _ _ _ _ _ _ _ _ _ Hrun Hadm)
        as (r0 & Hretry & ->).
      destruct (withRetry_rejecting_throughout rcfg random
                  (log_operation JSON_stringify uuidv4 Date_now insert_log
                     params json) w error budget)
        as (evs0 & w0' & Hrun0 & Hinv & _).
      * intros d. unfold log_operation. rewrite Hstr.
        destruct (uuidv4 d) as [logId d0]. exists d0. reflexivity.
      * rewrite Hrun0 in Hretry. injection Hretry as <- <- <-.
        split; [reflexivity | exact Hinv].
Qed.

End DataAccessFacts.

(** ** Instances on sample requests *)

Lemma getMemories_rejections_witness :
  getMemories adapter_retry adapter_breaker half sample_parse sample_find
    sample_params_no_table initial_breaker w0
  = (Thrown (JsThrown (ErrorInstance (new_Error "tableName is required"))),
     [], initial_breaker, w0).
Proof.
  refine (proj1 (getMemories_rejections adapter_retry adapter_breaker half
                   sample_parse _ sample_find sample_params_no_table
                   initial_breaker w0) _).
  - simpl; lia.
  - reflexivity.
Defined.

Lemma getMemoriesByRoomIds_empty_witness :
  fst (fst (fst empty_rooms_call)) = Returned []
  /\ snd (fst (fst empty_rooms_call)) = [EvInvoke None]
  /\ snd empty_rooms_call = w0.
Proof.
  refine (getMemoriesByRoomIds_empty adapter_retry adapter_breaker half
            sample_parse _ (fun _ => resolving sample_rows)
            {| mr_roomIds := []; mr_agentId := None;
               mr_tableName := "messages" |}
            initial_breaker (snd (fst empty_rooms_call)) w0
            (snd empty_rooms_call) (fst (fst (fst empty_rooms_call)))
            (snd (fst (fst empty_rooms_call))) _ _ _).
  - simpl; lia.
  - reflexivity.
  - reflexivity.
  - vm_compute; discriminate.
Defined.

Lemma getRoomsForParticipants_distinct_witness :
  NoDup ["r1"; "r2"]
  /\ exists d rooms all,
       resolving sample_participants d = (inl rooms, dep (snd rooms_call))
       /\ map pr_roomId rooms = map Some all
       /\ (forall id, In id ["r1"; "r2"] <-> In id all)
       /\ (NoDup all -> ["r1"; "r2"] = all).
Proof.
  refine (proj1 (getRoomsForParticipants_distinct adapter_retry
                   adapter_breaker half (new_Error "undefined")
                   (fun _ => resolving sample_participants)
                   (fun _ => resolving sample_participants))
            ["u1"; "u2"] initial_breaker (snd (fst rooms_call)) w0
            (snd rooms_call) ["r1"; "r2"] (snd (fst (fst rooms_call))) _).
  reflexivity.
Defined.

Lemma participant_and_cache_writes_never_throw_witness :
  snd (fst (fst add_participant_call)) = [EvInvoke None]
  /\ exists outcome : unit + js_thrown,
       rejecting (snd (sample_uuid (dep w0)))
       = (outcome, dep (snd add_participant_call))
       /\ fst (fst (fst add_participant_call))
          = Returned (is_resolved outcome).
Proof.
  refine (proj1 (participant_and_cache_writes_never_throw adapter_retry
                   adapter_breaker half sample_uuid _ (fun _ => rejecting)
                   (fun _ _ => rejecting) (fun _ _ => rejecting)
                   initial_breaker (snd (fst add_participant_call)) w0
                   (snd add_participant_call)
                   (fst (fst (fst add_participant_call)))
                   (snd (fst (fst add_participant_call))) _) "u1" "r1" _).
  - simpl; lia.
  - vm_compute; discriminate.
  - reflexivity.
Defined.

Lemma getCache_failure_looks_like_miss_witness :
  snd (fst (fst get_cache_call)) = [EvInvoke None]
  /\ exists answer : list cache_row + js_thrown,
       rejecting (dep w0) = (answer, dep (snd get_cache_call))
       /\ fst (fst (fst get_cache_call))
          = Returned match answer with
                     | inl (cacheEntry :: _) => cr_value cacheEntry
                     | inl [] => None
                     | inr _ => None
                     end.
Proof.
  refine (getCache_failure_looks_like_miss adapter_retry adapter_breaker half
            _ (fun _ _ => rejecting) "key" "agent" initial_breaker
            (snd (fst get_cache_call)) w0 (snd get_cache_call)
            (fst (fst (fst get_cache_call)))
            (snd (fst (fst get_cache_call))) _ _).
  - simpl; lia.
  - reflexivity.
  - vm_compute; discriminate.
Defined.

Lemma getMemoryById_missing_is_null_witness :
  fst (fst (fst missing_memory_call)) = Returned None
  /\ snd (fst (fst missing_memory_call)) = [EvInvoke None]
  /\ dep (snd missing_memory_call) = 1.
Proof.
  refine (proj2 (getMemoryById_missing_is_null adapter_retry adapter_breaker
                   half sample_parse _ (fun _ => resolving []) "missing"
                   initial_breaker (snd (fst missing_memory_call)) w0
                   (snd missing_memory_call)
                   (fst (fst (fst missing_memory_call)))
                   (snd (fst (fst missing_memory_call))) _) _ 1 _).
  - simpl; lia.
  - reflexivity.
  - vm_compute; discriminate.
  - reflexivity.
Defined.

Lemma getActorDetails_outcomes_witness :
  invocations (snd (fst (fst actor_details_call))) = 3
  /\ exists error d,
       (@rejecting (list participant_row) d
        = (inr error, dep (snd actor_details_call))
        \/ exists (participants : list participant_row) d1,
             rejecting d = (inl participants, d1)
             /\ @rejecting (list (@actor_row string unit)) d1
                = (inr error, dep (snd actor_details_call)))
       /\ ErrorInstance (new_Error "Failed to fetch actor details: boom")
          = ErrorInstance
              (new_Error ("Failed to fetch actor details: "
                          ++ error_text error)).
Proof.
  refine (proj2 (proj2 (@getActorDetails_outcomes nat string unit
                          adapter_retry
                          adapter_breaker half sample_parse "{}" _
                          (fun _ => rejecting) (fun _ => rejecting) "room"
                          initial_breaker (snd (fst actor_details_call)) w0
                          (snd actor_details_call)
                          (Thrown
                             (JsThrown
                                (ErrorInstance
                                   (new_Error
                                      "Failed to fetch actor details: boom"))))
                          (snd (fst (fst actor_details_call))) _))
            _
            (ErrorInstance
               (new_Error "Failed to fetch actor details: boom")) _).
  - simpl; lia.
  - reflexivity.
  - discriminate.
  - reflexivity.
Defined.

Lemma searchMemoriesByEmbedding_wrong_dimension_witness :
  fst (fst (fst wrong_dimension_call))
  = Thrown
      (JsThrown
         (ErrorInstance
            (new_Error
               ("Invalid embedding dimension: expected "
                ++ string_of_nat 384 ++ ", got "
                ++ string_of_nat (List.length sample_embedding)))))
  /\ invocations (snd (fst (fst wrong_dimension_call))) = 3
  /\ S (List.length (delays (snd (fst (fst wrong_dimension_call))))) = 3
  /\ dep (snd wrong_dimension_call) = dep w0.
Proof.
  refine (proj1 (searchMemoriesByEmbedding_wrong_dimension adapter_retry
                   adapter_breaker half sample_parse _ 384 (fun q => q)
                   (fun _ _ => resolving sample_rows) initial_breaker
                   (snd (fst wrong_dimension_call)) w0
                   (snd wrong_dimension_call)
                   (fst (fst (fst wrong_dimension_call)))
                   (snd (fst (fst wrong_dimension_call))) _)
            sample_embedding sample_search_params _ _).
  - simpl; lia.
  - vm_compute; discriminate.
  - simpl; lia.
  - reflexivity.
Defined.


Lemma countMemories_never_counts_witness :
  fst (fst (fst count_call)) = Returned None
  /\ snd (fst (fst count_call)) = [EvInvoke None].
Proof.
  refine (proj1 (proj2 (countMemories_never_counts adapter_retry
                          adapter_breaker half _
                          (fun _ => resolving sample_rows) "room" None
                          (Some "messages") initial_breaker
                          (snd (fst count_call)) w0 (snd count_call)
                          (fst (fst (fst count_call)))
                          (snd (fst (fst count_call))) _))
            _ "messages" _ _).
  - simpl; lia.
  - reflexivity.
  - vm_compute; discriminate.
  - reflexivity.
  - discriminate.
Defined.

Lemma log_validates_before_executor_witness :
  (fst (fst (fst log_call))
   = Thrown (JsThrown (ErrorInstance (new_Error "userId is required")))
   /\ snd (fst (fst log_call)) = []
   /\ snd (fst log_call) = initial_breaker
   /\ snd log_call = w0)
  /\ (forall insert_log' : log_doc -> operation nat unit,
         log adapter_retry adapter_breaker half refusing_stringify
           sample_uuid (fun served => inject_Z (Z.of_nat served)) insert_log'
           {| lg_body := ObjectBody "{}"; lg_userId := "user";
              lg_roomId := "room"; lg_type := "note" |}
           initial_breaker w0
         = log_unserialisable_call)
  /\ (fst (fst (fst log_unserialisable_call)) <> Thrown CircuitOpenError ->
      fst (fst (fst log_unserialisable_call))
      = Thrown (JsThrown (ErrorInstance (as_Error circular_structure)))
      /\ invocations (snd (fst (fst log_unserialisable_call))) = 3).
Proof.
  split.
  - refine (proj1 (log_validates_before_executor adapter_retry
                     adapter_breaker half sample_stringify sample_uuid
                     (fun served => inject_Z (Z.of_nat served)) _
                     (fun _ => resolving tt)
                     {| lg_body := ObjectBody "{}"; lg_userId := "";
                        lg_roomId := "room"; lg_type := "note" |}
                     initial_breaker (snd (fst log_call)) w0 (snd log_call)
                     (fst (fst (fst log_call))) (snd (fst (fst log_call))) _)
              _).
    + simpl; lia.
    + reflexivity.
    + reflexivity.
  - refine (proj2 (proj2 (proj2 (proj2
              (log_validates_before_executor adapter_retry adapter_breaker
                 half refusing_stringify sample_uuid
                 (fun served => inject_Z (Z.of_nat served)) _
                 (fun _ => resolving tt)
                 {| lg_body := ObjectBody "{}"; lg_userId := "user";
                    lg_roomId := "room"; lg_type := "note" |}
                 initial_breaker (snd (fst log_unserialisable_call)) w0
                 (snd log_unserialisable_call)
                 (fst (fst (fst log_unserialisable_call)))
                 (snd (fst (fst log_unserialisable_call))) _))))
              _ _ _ "{}" _).
    + simpl; lia.
    + reflexivity.
    + discriminate.
    + discriminate.
    + discriminate.
    + reflexivity.
Defined.

(** ** Accounts, relationships and rooms *)

Section AccountFacts.

Context {Store Json Fields : Type}.
Variable rcfg : RetryConfig.
Variable bcfg : BreakerConfig.
Variable random : nat -> Q.
Variable JSON_parse : string -> Json + JsError.
Variable JSON_stringify : Json -> option string + js_thrown.
Variable uuidv4 : Store -> string * Store.
Hypothesis budget : 1 <= maxRetries rcfg.

(** An operation that rejects with one and the same error at every
    invocation uses up the whole budget and that error is thrown. *)
Lemma withRetry_always_rejecting {T : Type} (op : operation Store T)
    (w : world Store) (e : JsError) :
  (forall d, exists d', op d = (inr (ErrorInstance e), d')) ->
  exists evs w',
    withRetry rcfg random op w = (Thrown (ErrorInstance e), evs, w')
    /\ invocations evs = maxRetries rcfg
    /\ S (List.length (delays evs)) = maxRetries rcfg.
Proof.
  intros Hop.
  assert (Hrej : forall n d last,
             1 <= n ->
             exists d', reject_run op n d last = Some (ErrorInstance e, d')).
  { induction n as [|n IH]; intros d last Hn; [lia|].
    simpl. destruct (Hop d) as (d1 & ->).
    destruct n as [|m]; [exists d1; reflexivity|].
    apply IH; lia. }
  destruct (Hrej (maxRetries rcfg) (dep w)
              (ErrorInstance (new_Error "Unknown error")) budget)
    as (d' & Hrun).
  destruct (withRetry_exhausted_run rcfg random op w _ _ budget Hrun)
    as (evs & w' & Hretry & Hinv & _).
  exists evs, w'. split; [exact Hretry|]. split; [exact Hinv|].
  assert (Hsum : maxRetries rcfg + 1 = S (maxRetries rcfg)) by lia.
  unfold withRetry in Hretry.
  destruct (retry_loop_budget rcfg random op _ _ _ _ _ _ _ budget Hsum
              Hretry) as (_ & Hlen & _).
  lia.
Qed.

(** X16: when [getAccountById] returns, the client answered its last
    request with no record, and the result is [null], or with records, and
    the result is the first with its [details] parsed.  Details that do
    not parse are not replaced: if every answer begins with one and the
    same record whose details are malformed, the call, unless rejected by
    the breaker, throws the parse error after [maxRetries] identical
    lookups. *)
Theorem getAccountById_outcomes :
  forall (find_account_by_id :
            string -> operation Store (list (@actor_row Json Fields)))
         (userId : string) (b b' : CircuitBreaker) (w w' : world Store)
         r evs,
    getAccountById rcfg bcfg random JSON_parse find_account_by_id userId b w
    = (r, evs, b', w') ->
    (forall found,
        r = Returned found ->
        exists d accounts,
          find_account_by_id userId d = (inl accounts, dep w')
          /\ match accounts with
             | [] => found = None
             | account :: _ =>
               exists a,
                 parse_account JSON_parse account = inl a /\ found = Some a
             end)
    /\ (r <> Thrown CircuitOpenError ->
        forall account text e,
          ar_details account = inl text ->
          JSON_parse text = inr e ->
          (forall d, exists rest d',
              find_account_by_id userId d = (inl (account :: rest), d')) ->
          r = Thrown (JsThrown (ErrorInstance e))
          /\ invocations evs = maxRetries rcfg
          /\ S (List.length (delays evs)) = maxRetries rcfg).
Proof.
  intros find_account_by_id userId b b' w w' r evs Hrun.
  unfold getAccountById in Hrun. split.
  - intros found ->.
    destruct (withDatabase_returned _ _ _ _ _ _ _ _ _ _ _ Hrun)
      as (d & Hop & _).
    unfold getAccountById_operation in Hop.
    destruct (find_account_by_id userId d) as [[accounts|error] d1] eqn:Hfind;
      [|discriminate].
    destruct accounts as [|account rest].
    + injection Hop as <- <-. exists d, []. split; [exact Hfind | reflexivity].
    + destruct (parse_account JSON_parse account) as [a|e] eqn:Hparse;
        [|discriminate].
      injection Hop as <- <-. exists d, (account :: rest).
      split; [exact Hfind|]. exists a; split; [exact Hparse | reflexivity].
  - intros Hadm account text e Hdetails Hparse Hfind.
    destruct (withDatabase_admitted _ _ _ _ _ _ _ _ _ _ _ Hrun Hadm)
      as (r0 & Hretry & ->).
    destruct (withRetry_always_rejecting
                (getAccountById_operation JSON_parse find_account_by_id
                   userId) w e) as (evs0 & w0' & Hrun0 & Hinv & Hdel).
    + intros d. destruct (Hfind d) as (rest & d' & Hd).
      exists d'. unfold getAccountById_operation, parse_account.
      rewrite Hd, Hdetails, Hparse. reflexivity.
    + rewrite Hrun0 in Hretry. injection Hretry as <- <- <-.
      repeat split; assumption.
Qed.

(** X17: [createAccount] and [createRelationship] never throw an error of
    their own.  Unless the breaker rejects the call, each runs its operation
    once and is never retried.  [createAccount] serialises the details
    before it sends anything: when [JSON.stringify] throws it resolves with
    [false] and no insert is sent (the call settles the same whatever the
    insert would do); otherwise it sends one insert and resolves with
    [true] or [false] according to whether the insert resolved.  The
    account inserted keeps the given [id], a new identifier being drawn
    only when there is none, gets the empty string for a missing
    [username], [email] or [avatarUrl], and the serialised details.
    [createRelationship] first rejects a call in which either user is
    missing, before the executor is entered, and otherwise sends one insert
    and resolves with [true] or [false] according to its outcome. *)
Theorem createAccount_createRelationship_never_throw :
  forall (insert_account : account_doc -> operation Store unit)
         (insert_relationship : relationship_doc -> operation Store unit)
         (b b' : CircuitBreaker) (w w' : world Store) r evs,
    r <> Thrown CircuitOpenError ->
    (forall account : AccountInput,
        createAccount rcfg bcfg random JSON_stringify uuidv4 insert_account
          account b w = (r, evs, b', w') ->
        let d0 := match ai_id account with
                  | Some _ => dep w
                  | None => snd (uuidv4 (dep w))
                  end in
        evs = [EvInvoke None]
        /\ match stringify_details JSON_stringify (ai_details account) with
           | inr _ =>
             r = Returned false
             /\ dep w' = d0
             /\ (forall insert_account' : account_doc -> operation Store unit,
                    createAccount rcfg bcfg random JSON_stringify uuidv4
                      insert_account' account b w = (r, evs, b', w'))
           | inl details =>
             exists doc outcome,
               insert_account doc d0 = (outcome, dep w')
               /\ r = Returned (is_resolved outcome)
               /\ ad_id doc = match ai_id account with
                              | Some id => id
                              | None => fst (uuidv4 (dep w))
                              end
               /\ ad_name doc = ai_name account
               /\ ad_username doc = or_empty (ai_username account)
               /\ ad_email doc = or_empty (ai_email account)
               /\ ad_avatarUrl doc = or_empty (ai_avatarUrl account)
               /\ ad_details doc = details
           end)
    /\ (forall userA userB,
           createRelationship rcfg bcfg random uuidv4 insert_relationship
             userA userB b w = (r, evs, b', w') ->
           ((userA = "" \/ userB = "") ->
            r = Thrown
                  (JsThrown
                     (ErrorInstance
                        (new_Error "userA and userB are required")))
            /\ evs = [] /\ b' = b /\ w' = w)
           /\ (userA <> "" -> userB <> "" ->
               evs = [EvInvoke None]
               /\ exists outcome,
                    insert_relationship
                      {| rd_id := fst (uuidv4 (dep w)); rd_userA := userA;
                         rd_userB := userB; rd_userId := userA |}
                      (snd (uuidv4 (dep w)))
                    = (outcome, dep w')
                    /\ r = Returned (is_resolved outcome))).
Proof.
  intros insert_account insert_relationship b b' w w' r evs Hadm. split.
  - intros account Hrun. unfold createAccount in Hrun.
    assert (Htotal : forall d, exists v d',
               createAccount_operation JSON_stringify uuidv4 insert_account
                 account d = (inl v, d')).
    { intros d. unfold createAccount_operation.
      destruct (ai_id account); [|destruct (uuidv4 d)];
        (destruct (stringify_details JSON_stringify (ai_details account));
         [apply true_unless_thrown_total | eauto]). }
    destruct (withDatabase_admitted _ _ _ _ _ _ _ _ _ _ _ Hrun Hadm)
      as (r0 & Hretry & Hr0).
    destruct (Htotal (dep w)) as (v & d' & Hop).
    rewrite (withRetry_resolves_at_once rcfg random _ w v d' budget Hop)
      in Hretry.
    injection Hretry as <- <- Hw'.
    cbv zeta. split; [reflexivity|].
    destruct (stringify_details JSON_stringify (ai_details account))
      as [details|error] eqn:Hstr.
    + subst r w'.
      unfold createAccount_operation, true_unless_thrown in Hop.
      rewrite Hstr in Hop.
      destruct (ai_id account) as [id|].
      * destruct (insert_account _ (dep w)) as [[u|e] d1] eqn:Hins;
          injection Hop as <- <-;
          eexists _, _; (split; [exact Hins|]); repeat split.
      * destruct (uuidv4 (dep w)) as [id d0]; simpl.
        destruct (insert_account _ d0) as [[u|e] d1] eqn:Hins;
          injection Hop as <- <-;
          eexists _, _; (split; [exact Hins|]); repeat split.
    + split; [|split].
      * subst r. unfold createAccount_operation in Hop. rewrite Hstr in Hop.
        destruct (ai_id account); [|destruct (uuidv4 (dep w))];
          injection Hop as <- _; reflexivity.
      * subst w'. unfold createAccount_operation in Hop.
        rewrite Hstr in Hop.
        destruct (ai_id account); [|destruct (uuidv4 (dep w))];
          injection Hop as _ <-; reflexivity.
      * intros insert_account'. unfold createAccount.
        rewrite <- Hrun. symmetry. apply withDatabase_ext.
        intros d. unfold createAccount_operation. rewrite Hstr.
        reflexivity.
  - intros userA userB. unfold createRelationship.
    pose proof (truthy_string_empty userA) as HA.
    pose proof (truthy_string_empty userB) as HB.
    destruct (truthy_string userA); [destruct (truthy_string userB)|];
      simpl; intros Hrun.
    + split; [intros [H|H]; [apply HA in H | apply HB in H]; discriminate|].
      intros _ _.
      assert (Htotal : forall d, exists v d',
                 createRelationship_operation uuidv4 insert_relationship
                   userA userB d = (inl v, d')).
      { intros d. unfold createRelationship_operation.
        destruct (uuidv4 d). apply true_unless_thrown_total. }
      destruct (withDatabase_admitted _ _ _ _ _ _ _ _ _ _ _ Hrun Hadm)
        as (r0 & Hretry & ->).
      destruct (Htotal (dep w)) as (v & d' & Hop).
      rewrite (withRetry_resolves_at_once rcfg random _ w v d' budget Hop)
        in Hretry.
      injection Hretry as <- <- <-.
      split; [reflexivity|].
      unfold createRelationship_operation, true_unless_thrown in Hop.
      destruct (uuidv4 (dep w)) as [id d0]; simpl.
      destruct (insert_relationship _ d0) as [[u|e] d1];
        injection Hop as <- <-; eexists; split; reflexivity.
    + unfold reject_with in Hrun. injection Hrun as <- <- <- <-.
      split; [intros _; repeat split|].
      intros _ H. exfalso; apply H, HB; reflexivity.
    + unfold reject_with in Hrun. injection Hrun as <- <- <- <-.
      split; [intros _; repeat split|].
      intros H. exfalso; apply H, HA; reflexivity.
Qed.

(** X18: the id [createRoom] returns is the id of the room its last
    request inserted: the given [roomId] when there is a non-empty one,
    otherwise the identifier drawn for that attempt.  An error it throws is
    the error of the insert, after [maxRetries] attempts. *)
Theorem createRoom_returns_inserted_id :
  forall (insert_room : string -> operation Store unit)
         (roomId : option string) (b b' : CircuitBreaker)
         (w w' : world Store) r evs,
    createRoom rcfg bcfg random uuidv4 insert_room roomId b w
    = (r, evs, b', w') ->
    (forall id,
        r = Returned id ->
        (exists d d0,
            insert_room id d0 = (inl tt, dep w')
            /\ ((roomId = Some id /\ id <> "" /\ d0 = d)
                \/ ((roomId = None \/ roomId = Some "")
                    /\ uuidv4 d = (id, d0)))))
    /\ (forall t,
           r = Thrown (JsThrown t) ->
           invocations evs = maxRetries rcfg
           /\ exists error id d0,
                insert_room id d0 = (inr error, dep w')
                /\ t = ErrorInstance (as_Error error)).
Proof.
  intros insert_room roomId b b' w w' r evs Hrun.
  unfold createRoom in Hrun.
  assert (Hshape : forall d,
             exists id d0,
               createRoom_operation uuidv4 insert_room roomId d
               = match insert_room id d0 with
                 | (inl _, d') => (inl id, d')
                 | (inr error, d') => (inr error, d')
                 end
               /\ ((roomId = Some id /\ id <> "" /\ d0 = d)
                   \/ ((roomId = None \/ roomId = Some "")
                       /\ uuidv4 d = (id, d0)))).
  { intros d. unfold createRoom_operation.
    destruct roomId as [s|]; simpl.
    - pose proof (truthy_string_empty s) as Hs.
      destruct (truthy_string s).
      + exists s, d. split; [reflexivity|]. left.
        split; [reflexivity|]. split; [|reflexivity].
        intros H; apply Hs in H; discriminate.
      + destruct (uuidv4 d) as [id d0]. exists id, d0.
        split; [reflexivity|]. right. split; [|reflexivity].
        right. f_equal. apply Hs; reflexivity.
    - destruct (uuidv4 d) as [id d0]. exists id, d0.
      split; [reflexivity|]. right. split; [now left | reflexivity]. }
  split.
  - intros id ->.
    destruct (withDatabase_returned _ _ _ _ _ _ _ _ _ _ _ Hrun)
      as (d & Hop & _).
    destruct (Hshape d) as (id' & d0 & Heq & Hid).
    rewrite Heq in Hop.
    destruct (insert_room id' d0) as [[[]|error] d1] eqn:Hins;
      [|discriminate].
    injection Hop as <- <-.
    exists d, d0. split; [exact Hins | exact Hid].
  - intros t ->.
    destruct (withDatabase_admitted _ _ _ _ _ _ _ _ _ _ _ Hrun)
      as (r0 & Hretry & Hr0); [discriminate|].
    destruct r0 as [v|e]; [discriminate|]. injection Hr0 as ->.
    destruct (withRetry_thrown_inv _ _ _ _ _ _ _ budget Hretry)
      as (error & d & Hop & -> & Hinv).
    split; [exact Hinv|].
    destruct (Hshape d) as (id' & d0 & Heq & _).
    rewrite Heq in Hop.
    destruct (insert_room id' d0) as [[u|error'] d1] eqn:Hins;
      [discriminate|].
    injection Hop as <- <-.
    exists error', id', d0. split; [exact Hins | reflexivity].
Qed.

End AccountFacts.

Lemma getAccountById_outcomes_witness :
  fst (fst (fst malformed_account_call))
  = Thrown (JsThrown (ErrorInstance syntax_error))
  /\ invocations (snd (fst (fst malformed_account_call))) = 3
  /\ S (List.length (delays (snd (fst (fst malformed_account_call))))) = 3.
Proof.
  refine (proj2 (@getAccountById_outcomes nat string unit adapter_retry
                   adapter_breaker half refusing_parse _
                   (fun _ => resolving [malformed_account]) "u1"
                   initial_breaker (snd (fst malformed_account_call)) w0
                   (snd malformed_account_call)
                   (fst (fst (fst malformed_account_call)))
                   (snd (fst (fst malformed_account_call))) _)
            _ malformed_account "not json" syntax_error _ _ _).
  - simpl; lia.
  - reflexivity.
  - vm_compute; discriminate.
  - reflexivity.
  - reflexivity.
  - intros d. exists [], (S d). reflexivity.
Defined.

Lemma createAccount_createRelationship_never_throw_witness :
  (snd (fst (fst create_account_call)) = [EvInvoke None]
   /\ exists doc (outcome : unit + js_thrown),
        rejecting (snd (sample_uuid (dep w0)))
        = (outcome, dep (snd create_account_call))
        /\ fst (fst (fst create_account_call))
           = Returned (is_resolved outcome)
        /\ ad_id doc = fst (sample_uuid (dep w0))
        /\ ad_name doc = "Ada"
        /\ ad_username doc = ""
        /\ ad_email doc = "ada@example.org"
        /\ ad_avatarUrl doc = ""
        /\ ad_details doc = Some "{}")
  /\ snd (fst (fst create_account_unserialisable_call)) = [EvInvoke None]
  /\ fst (fst (fst create_account_unserialisable_call)) = Returned false
  /\ dep (snd create_account_unserialisable_call)
     = snd (sample_uuid (dep w0))
  /\ (forall insert_account' : account_doc -> operation nat unit,
         createAccount adapter_retry adapter_breaker half refusing_stringify
           sample_uuid insert_account' sample_account initial_breaker w0
         = create_account_unserialisable_call).
Proof.
  split.
  - refine (proj1 (@createAccount_createRelationship_never_throw nat string
                     adapter_retry adapter_breaker half
                     sample_stringify sample_uuid _
                     (fun _ => rejecting) (fun _ => rejecting)
                     initial_breaker
                     (snd (fst create_account_call)) w0
                     (snd create_account_call)
                     (fst (fst (fst create_account_call)))
                     (snd (fst (fst create_account_call))) _)
              sample_account _).
    + simpl; lia.
    + vm_compute; discriminate.
    + reflexivity.
  - refine (proj1 (@createAccount_createRelationship_never_throw nat string
                     adapter_retry adapter_breaker half
                     refusing_stringify sample_uuid _
                     (fun _ => resolving tt) (fun _ => rejecting)
                     initial_breaker
                     (snd (fst create_account_unserialisable_call)) w0
                     (snd create_account_unserialisable_call)
                     (fst (fst (fst create_account_unserialisable_call)))
                     (snd (fst (fst create_account_unserialisable_call))) _)
              sample_account _).
    + simpl; lia.
    + vm_compute; discriminate.
    + reflexivity.
Defined.

Lemma createRoom_returns_inserted_id_witness :
  exists d d0,
    resolving tt d0 = (inl tt, dep (snd create_room_call))
    /\ ((Some "r7" = Some "r7" /\ "r7" <> "" /\ d0 = d)
        \/ ((Some "r7" = None \/ Some "r7" = Some "")
            /\ sample_uuid d = ("r7", d0))).
Proof.
  refine (proj1 (createRoom_returns_inserted_id adapter_retry adapter_breaker
                   half sample_uuid _ (fun _ => resolving tt) (Some "r7")
                   initial_breaker (snd (fst create_room_call)) w0
                   (snd create_room_call) (Returned "r7")
                   (snd (fst (fst create_room_call))) _) "r7" _).
  - simpl; lia.
  - reflexivity.
  - reflexivity.
Defined.
